(** * RAG prototype: chunking, vector-store scoring, prompt context, keyword coverage

    A shallow embedding of the pure parts of
    - [app/services/chunking.py]   (character and sentence chunkers),
    - [app/core/vector_store.py]   ([VectorStore.search]),
    - [app/core/rag_pipeline.py]   ([RAGPipeline._format_context]),
    - [app/services/evaluation.py] ([EvaluationService.evaluate_batch]),
    followed by the properties established about them.

    Conventions.  Python [int] is [Z].  Python [str] is [string], a sequence
    of code points below 256.  Python [float] is idealised as an exact
    rational ([Q]); [nan] and the infinities are not represented.  A raised
    exception is [None] in an [option].  A [while] loop that may run forever
    takes a fuel argument and answers [None] when the fuel is exhausted. *)

From Stdlib Require Import ZArith QArith Lia Lqa String Ascii List DecimalString.
From stdpp Require Import base option list strings gmap.

Close Scope Q_scope.
Local Open Scope Z_scope.

(** ** The fragments of Python's built-ins that the sources rely on *)

Module Py.

(** [len(s)] *)
Definition len (s : string) : Z := Z.of_nat (String.length s).

(** Truth value of a [str]: non-empty. *)
Definition truthy (s : string) : bool :=
  match s with EmptyString => false | String _ _ => true end.

(** [c.isspace()] for a code point below 256; [\s] of the [re] module on
    [str] patterns accepts the same characters. *)
Definition isspace (c : ascii) : bool :=
  let n := nat_of_ascii c in
  ((9 <=? n)%nat && (n <=? 13)%nat) || ((28 <=? n)%nat && (n <=? 32)%nat)
  || (n =? 133)%nat || (n =? 160)%nat.

Fixpoint lstrip (s : string) : string :=
  match s with
  | EmptyString => EmptyString
  | String c r => if isspace c then lstrip r else s
  end.

Fixpoint rstrip (s : string) : string :=
  match s with
  | EmptyString => EmptyString
  | String c r =>
      match rstrip r with
      | EmptyString => if isspace c then EmptyString else String c EmptyString
      | r' => String c r'
      end
  end.

(** [s.strip()] *)
Definition strip (s : string) : string := lstrip (rstrip s).

(** Index adjustment of a slice bound, as CPython's [PySlice_AdjustIndices]
    does for step 1: a negative bound counts from the end, then the bound
    is clamped to [0, n]. *)
Definition adjust (n i : Z) : Z :=
  if i <? 0 then Z.max (i + n) 0 else Z.min i n.

(** [s[start:stop]] *)
Definition slice (s : string) (start stop : Z) : string :=
  let lo := adjust (len s) start in
  let hi := adjust (len s) stop in
  String.substring (Z.to_nat lo) (Z.to_nat (hi - lo)) s.

(** [s[start:]] *)
Definition slice_from (s : string) (start : Z) : string :=
  let lo := adjust (len s) start in
  String.substring (Z.to_nat lo) (Z.to_nat (len s - lo)) s.

(** [c.lower()] for a code point below 256: [A-Z] and the Latin-1 capitals
    [U+00C0 .. U+00DE] except the multiplication sign move up by 32. *)
Definition lower_char (c : ascii) : ascii :=
  let n := nat_of_ascii c in
  if ((65 <=? n)%nat && (n <=? 90)%nat)
     || ((192 <=? n)%nat && (n <=? 222)%nat && negb (n =? 215)%nat)
  then ascii_of_nat (n + 32) else c.

(** [s.lower()] *)
Fixpoint lower (s : string) : string :=
  match s with
  | EmptyString => EmptyString
  | String c r => String (lower_char c) (lower r)
  end.

(** [sub in s] on strings: [sub] occurs in [s] at some offset. *)
Fixpoint contains (sub s : string) : bool :=
  String.prefix sub s
  || match s with
     | EmptyString => false
     | String _ r => contains sub r
     end.

(** [str(n)] for an [int]. *)
Definition str_of_int (n : Z) : string := NilZero.string_of_int (Z.to_int n).

(** The one-character string [\n]. *)
Definition newline : string := String "010"%char EmptyString.

(** [format(x, ".2f")]: the sign, then the magnitude rounded to hundredths,
    ties to the even neighbour (the rounding of the exact value, which is
    what CPython prints), with two digits after the point. *)
Definition format_2f (x : Q) : string :=
  let n := Z.abs (Qnum x) * 100 in
  let d := Z.pos (Qden x) in
  let q := n / d in
  let r := n mod d in
  let m := if 2 * r <? d then q
           else if 2 * r >? d then q + 1
           else if Z.even q then q else q + 1 in
  (if Qnum x <? 0 then "-" else "")
  +:+ str_of_int (m / 100) +:+ "."
  +:+ str_of_int (m mod 100 / 10) +:+ str_of_int (m mod 10).

(** [x < y] on floats. *)
Definition float_lt (x y : Q) : bool := negb (Qle_bool y x).

End Py.

(** ** [app/services/chunking.py] *)

Module Chunking.

Record Chunk := mkChunk {
  text : string;
  chunk_index : Z;
  start_char : Z;
  end_char : Z;
  char_count : Z
}.

(** The [while start < len(text)] loop of [chunk_by_characters], one
    iteration per unit of fuel.  The arguments [start], [chunk_index] and
    [chunks] are the loop's local variables. *)
Fixpoint chars_loop (fuel : nat) (text : string) (chunk_size chunk_overlap : Z)
    (start chunk_index : Z) (chunks : list Chunk) : option (list Chunk) :=
  match fuel with
  | O => None
  | S fuel' =>
      if start <? Py.len text then
        let end_ := start + chunk_size in
        let chunk_text := Py.slice text start end_ in
        let '(chunks, chunk_index) :=
          if Py.truthy (Py.strip chunk_text) then
            (chunks ++ [mkChunk chunk_text chunk_index start end_ (Py.len chunk_text)],
             chunk_index + 1)
          else (chunks, chunk_index) in
        let start := end_ - chunk_overlap in
        if start >=? Py.len text then Some chunks
        else chars_loop fuel' text chunk_size chunk_overlap start chunk_index chunks
      else Some chunks
  end.

Definition chunk_by_characters (fuel : nat) (text : string)
    (chunk_size chunk_overlap : Z) : option (list Chunk) :=
  if negb (Py.truthy text) then Some []
  else chars_loop fuel text chunk_size chunk_overlap 0 0 [].

(** [re.split(r'(?<=[.!?])\s+', text)].  A match starts at a whitespace
    character that directly follows one of [.], [!], [?] and extends over
    the whitespace that follows it.  [cur] is the piece being read,
    [after_punct] tells whether the previous character was one of the three
    marks, [skipping] whether a match is being consumed. *)
Definition is_sentence_end (c : ascii) : bool :=
  (Ascii.eqb c "."%char || Ascii.eqb c "!"%char || Ascii.eqb c "?"%char)%bool.

Fixpoint re_split_loop (skipping after_punct : bool) (cur s : string) : list string :=
  match s with
  | EmptyString => [cur]
  | String c r =>
      if skipping then
        if Py.isspace c then re_split_loop true false cur r
        else re_split_loop false (is_sentence_end c) (String c EmptyString) r
      else if after_punct && Py.isspace c then
        cur :: re_split_loop true false EmptyString r
      else re_split_loop false (is_sentence_end c) (cur +:+ String c EmptyString) r
  end.

Definition re_split_sentences (text : string) : list string :=
  re_split_loop false false EmptyString text.

(** Local variables of the [for sentence in sentences] loop. *)
Record SentenceState := mkSentenceState {
  st_chunks : list Chunk;
  st_current_chunk : string;
  st_chunk_index : Z;
  st_char_position : Z
}.

Definition closed_chunk (current_chunk : string) (chunk_index char_position : Z) : Chunk :=
  mkChunk (Py.strip current_chunk) chunk_index
          (char_position - Py.len current_chunk) char_position
          (Py.len (Py.strip current_chunk)).

(** One iteration of the loop body. *)
Definition sentence_step (chunk_size chunk_overlap : Z)
    (st : SentenceState) (sentence : string) : SentenceState :=
  let '(mkSentenceState chunks current_chunk chunk_index char_position) := st in
  let '(chunks, current_chunk, chunk_index) :=
    if Py.truthy current_chunk
       && (Py.len current_chunk + Py.len sentence + 1 >? chunk_size) then
      let chunks := chunks ++ [closed_chunk current_chunk chunk_index char_position] in
      let chunk_index := chunk_index + 1 in
      if (chunk_overlap >? 0) && (Py.len current_chunk >? chunk_overlap) then
        let overlap_text := Py.slice_from current_chunk (- chunk_overlap) in
        (chunks, overlap_text +:+ " " +:+ sentence, chunk_index)
      else (chunks, sentence, chunk_index)
    else if Py.truthy current_chunk then
      (chunks, current_chunk +:+ " " +:+ sentence, chunk_index)
    else (chunks, sentence, chunk_index) in
  mkSentenceState chunks current_chunk chunk_index (char_position + (Py.len sentence + 1)).

Definition chunk_by_sentences (fuel : nat) (text : string)
    (chunk_size chunk_overlap : Z) : option (list Chunk) :=
  if negb (Py.truthy text) then Some []
  else
    let sentences := re_split_sentences text in
    let sentences :=
      map Py.strip (List.filter (fun s => Py.truthy (Py.strip s)) sentences) in
    match sentences with
    | [] => chunk_by_characters fuel text chunk_size chunk_overlap
    | _ :: _ =>
        let st := fold_left (sentence_step chunk_size chunk_overlap) sentences
                            (mkSentenceState [] EmptyString 0 0) in
        let '(mkSentenceState chunks current_chunk chunk_index char_position) := st in
        if Py.truthy (Py.strip current_chunk) then
          Some (chunks ++ [closed_chunk current_chunk chunk_index char_position])
        else Some chunks
    end.

Inductive Strategy := Characters | Sentences | Unknown (name : string).

(** [chunk_text]: an unknown strategy name falls back to the sentence
    strategy (the warning it logs is not modelled). *)
Definition chunk_text (fuel : nat) (text : string) (chunk_size chunk_overlap : Z)
    (strategy : Strategy) : option (list Chunk) :=
  match strategy with
  | Characters => chunk_by_characters fuel text chunk_size chunk_overlap
  | Sentences => chunk_by_sentences fuel text chunk_size chunk_overlap
  | Unknown _ => chunk_by_sentences fuel text chunk_size chunk_overlap
  end.

End Chunking.

(** ** [app/core/vector_store.py] *)

Module VectorStore.

(** A metadata value as the ingestion code stores them. *)
Inductive MetaValue := MetaStr (s : string) | MetaInt (n : Z).

Abbreviation Metadata := (gmap string MetaValue).

(** The [where] argument handed to ChromaDB. *)
Inductive WhereFilter :=
| WhereDataset (dataset_id : string)          (* {"dataset_id": d} *)
| WhereDatasetIn (dataset_ids : list string). (* {"dataset_id": {"$in": ds}} *)

(** The arguments of one [collection.query] call. *)
Record QueryCall := mkQueryCall {
  query_embeddings : list (list Q);
  n_results : Z;
  where_ : option WhereFilter
}.

(** What [collection.query] answers: for each query embedding, the
    parallel lists of ids, distances, documents and metadata. *)
Record QueryResult := mkQueryResult {
  ids : list (list string);
  distances : list (list Q);
  documents : list (list string);
  metadatas : list (list Metadata)
}.

(** The store, seen through the one method of its collection that
    [search] uses; [None] is an exception raised by the index. *)
Record VectorStore := mkVectorStore {
  collection_name : string;
  collection_query : QueryCall -> option QueryResult
}.

(** An entry of the list that [search] returns. *)
Record Document := mkDocument {
  text : string;
  score : Q;
  metadata : Metadata;
  id : string
}.

(** The outcome of a method call: the queries it sent to the index, in
    order, and its return value ([None] when an exception escaped). *)
Record Run (A : Type) := mkRun {
  queries : list QueryCall;
  returned : option A
}.
Arguments mkRun {A} _ _.
Arguments queries {A} _.
Arguments returned {A} _.

(** [xss[0][i]], [None] on [IndexError]. *)
Definition first_at {A : Type} (xss : list (list A)) (i : nat) : option A :=
  xs ← xss !! 0%nat; xs !! i.

(** The [for i in range(len(results["ids"][0]))] loop; [range] is what is
    left of the range and [docs] is the local list [documents]. *)
Fixpoint search_loop (results : QueryResult) (min_score : Q)
    (range : list nat) (docs : list Document) : option (list Document) :=
  match range with
  | [] => Some docs
  | i :: range =>
      distance ← first_at (distances results) i;
      let similarity := (1 - (distance ^ 2 / 2))%Q in
      if Py.float_lt similarity min_score then
        search_loop results min_score range docs
      else
        text ← first_at (documents results) i;
        metadata ← first_at (metadatas results) i;
        id ← first_at (ids results) i;
        search_loop results min_score range
                    (docs ++ [mkDocument text similarity metadata id])
  end.

Definition process_results (results : QueryResult) (min_score : Q)
    : option (list Document) :=
  match ids results with
  | (_ :: _) as ids0 :: _ =>
      search_loop results min_score (seq 0 (length ids0)) []
  | _ => Some []
  end.

Definition search (self : VectorStore) (query_embedding : list Q) (top_k : Z)
    (enabled_datasets : option (list string)) (min_score : Q)
    : Run (list Document) :=
  match enabled_datasets with
  | Some [] => mkRun [] (Some [])
  | _ =>
      let where_filter :=
        match enabled_datasets with
        | Some [d] => Some (WhereDataset d)
        | Some ((_ :: _) as ds) => Some (WhereDatasetIn ds)
        | _ => None
        end in
      let call := mkQueryCall [query_embedding] top_k where_filter in
      mkRun [call]
            (results ← collection_query self call; process_results results min_score)
  end.

End VectorStore.

(** ** [app/core/rag_pipeline.py] *)

Module RAGPipeline.
Import VectorStore.

(** [str(v)] of a metadata value, as an f-string field renders it. *)
Definition str_of_meta (v : MetaValue) : string :=
  match v with
  | MetaStr s => s
  | MetaInt n => Py.str_of_int n
  end.

(** The f-string of the loop body, for rank [i]. *)
Definition format_entry (i : Z) (chunk : Document) : string :=
  let source := default (MetaStr "Unknown") (metadata chunk !! "source_title") in
  let score := score chunk in
  let text := text chunk in
  "[Source " +:+ Py.str_of_int i +:+ ": " +:+ str_of_meta source
  +:+ " (relevance: " +:+ Py.format_2f score +:+ ")]" +:+ Py.newline +:+ text.

(** The [for i, chunk in enumerate(chunks, 1)] loop appending to
    [formatted]. *)
Fixpoint format_loop (i : Z) (chunks : list Document) (formatted : list string)
    : list string :=
  match chunks with
  | [] => formatted
  | chunk :: chunks => format_loop (i + 1) chunks (formatted ++ [format_entry i chunk])
  end.

Definition _format_context (chunks : list Document) : string :=
  match chunks with
  | [] => "No relevant context found."
  | _ :: _ => String.concat (Py.newline +:+ Py.newline) (format_loop 1 chunks [])
  end.

End RAGPipeline.

(** ** [app/services/evaluation.py] *)

Module EvaluationService.

Record TestQuestion := mkTestQuestion {
  question : string;
  expected_keywords : list string
}.

(** The part of the pipeline's observability record read here. *)
Record Observability := mkObservability {
  total_latency_ms : Z;
  full_prompt : string
}.

Record Response := mkResponse {
  answer : string;
  observability : Observability
}.

Record QuestionResult := mkQuestionResult {
  r_question : string;
  r_answer : string;
  r_expected_keywords : list string;
  r_keywords_found : list string;
  r_keyword_coverage : Q;
  r_observability : Observability
}.

(** The returned dictionary, without its [evaluated_at] time stamp. *)
Record BatchResult := mkBatchResult {
  total_questions : Z;
  avg_keyword_coverage : Q;
  avg_latency_ms : Q;
  results : list QuestionResult
}.

Definition list_len {A : Type} (l : list A) : Z := Z.of_nat (length l).

(** [sum(xs) / len(xs) if xs else 0.0] *)
Definition mean (xs : list Q) : Q :=
  match xs with
  | [] => 0%Q
  | _ :: _ => (fold_left Qplus xs 0 / inject_Z (list_len xs))%Q
  end.

Section Batch.
(** The pipeline is an external service: [rag_pipeline.query(query=q,
    **config)] is a transition on its (hidden) state that either raises
    or answers. *)
Context {Pipeline Config : Type}.
Variable query : Pipeline -> string -> Config -> option (Response * Pipeline).

(** The body of [for test_q in test_questions], given the response. *)
Definition evaluate_question (test_q : TestQuestion) (response : Response)
    : QuestionResult :=
  let question := question test_q in
  let expected_keywords := expected_keywords test_q in
  let answer := Py.lower (answer response) in
  let keywords_found :=
    List.filter (fun kw => Py.contains (Py.lower kw) answer) expected_keywords in
  let keyword_coverage :=
    match expected_keywords with
    | [] => 0%Q
    | _ :: _ => (inject_Z (list_len keywords_found)
                 / inject_Z (list_len expected_keywords))%Q
    end in
  mkQuestionResult question (EvaluationService.answer response) expected_keywords
                   keywords_found keyword_coverage (observability response).

Fixpoint batch_loop (rag_pipeline : Pipeline) (config : Config)
    (test_questions : list TestQuestion) (results : list QuestionResult)
    : option (list QuestionResult) :=
  match test_questions with
  | [] => Some results
  | test_q :: test_questions =>
      '(response, rag_pipeline) ← query rag_pipeline (question test_q) config;
      batch_loop rag_pipeline config test_questions
                 (results ++ [evaluate_question test_q response])
  end.

Definition evaluate_batch (test_questions : list TestQuestion)
    (rag_pipeline : Pipeline) (config : Config) : option BatchResult :=
  results ← batch_loop rag_pipeline config test_questions [];
  Some (mkBatchResult
          (list_len test_questions)
          (mean (map r_keyword_coverage results))
          (mean (map (fun r => inject_Z (total_latency_ms (r_observability r))) results))
          results).
End Batch.

End EvaluationService.

(** ** [app/core/llm_client.py]: token pricing *)

Module LLMClient.

Record Pricing := mkPricing {
  input : Q;
  output : Q
}.

(** Price in USD per million tokens. *)
Definition TOKEN_PRICING : gmap string Pricing :=
  list_to_map
    [ ("gpt-4o", mkPricing 2.50 10.00);
      ("gpt-4o-mini", mkPricing 0.15 0.60);
      ("gpt-4-turbo", mkPricing 10.00 30.00);
      ("gpt-4", mkPricing 30.00 60.00);
      ("gpt-3.5-turbo", mkPricing 0.50 1.50) ].

(** [TOKEN_PRICING.get(model, TOKEN_PRICING["gpt-4o"])]: the default is
    looked up first, and a missing key there would raise. *)
Definition _calculate_cost (model : string) (prompt_tokens completion_tokens : Z)
    : option Q :=
  fallback ← TOKEN_PRICING !! "gpt-4o";
  let pricing := default fallback (TOKEN_PRICING !! model) in
  let input_cost := (inject_Z prompt_tokens / 1000000 * input pricing)%Q in
  let output_cost := (inject_Z completion_tokens / 1000000 * output pricing)%Q in
  Some (input_cost + output_cost)%Q.

(** [len(text) // 4] *)
Definition estimate_tokens (text : string) : Z := Py.len text / 4.

End LLMClient.

(** ** [app/services/evaluation.py]: metrics of one response *)

Module EvaluationMetrics.

(** A retrieved chunk as [_calculate_basic_metrics] reads it: its [score]
    entry, a float, when the dictionary has one. *)
Record RatedChunk := mkRatedChunk {
  chunk_score : option Q
}.

Record BasicMetrics := mkBasicMetrics {
  response_length : Z;
  avg_chunk_score : Q;
  min_chunk_score : Q;
  max_chunk_score : Q
}.

(** [min(xs)] and [max(xs)]: the first of the smallest (largest) elements,
    [None] for the [ValueError] on an empty list. *)
Definition py_min (xs : list Q) : option Q :=
  match xs with
  | [] => None
  | x :: xs => Some (fold_left (fun m y => if Py.float_lt y m then y else m) xs x)
  end.

Definition py_max (xs : list Q) : option Q :=
  match xs with
  | [] => None
  | x :: xs => Some (fold_left (fun m y => if Py.float_lt m y then y else m) xs x)
  end.

Definition _calculate_basic_metrics (response : string)
    (retrieved_chunks : list RatedChunk) : option BasicMetrics :=
  match retrieved_chunks with
  | [] => Some (mkBasicMetrics (Py.len response) 0 0 0)
  | _ :: _ =>
      let scores := map (fun chunk => default 0%Q (chunk_score chunk)) retrieved_chunks in
      let avg := (fold_left Qplus scores 0 / inject_Z (Z.of_nat (length scores)))%Q in
      lowest ← py_min scores;
      highest ← py_max scores;
      Some (mkBasicMetrics (Py.len response) avg lowest highest)
  end.

(** The dictionary [evaluate_response] returns; [evaluated_at] is the time
    stamp it was given by the clock. *)
Record Evaluation := mkEvaluation {
  ev_query : string;
  ev_response : string;
  ev_rating : option Z;
  ev_notes : option string;
  ev_num_chunks : Z;
  ev_evaluated_at : string;
  ev_metrics : BasicMetrics
}.

Definition evaluate_response (utcnow : string) (query response : string)
    (retrieved_chunks : list RatedChunk) (rating : option Z) (notes : option string)
    : option Evaluation :=
  metrics ← _calculate_basic_metrics response retrieved_chunks;
  Some (mkEvaluation query response rating notes (Z.of_nat (length retrieved_chunks))
                     utcnow metrics).

End EvaluationMetrics.

(** ** [app/core/vector_store.py]: adding documents *)

Module VectorStoreWrites.
Import VectorStore.

(** The arguments of one [collection.add] call. *)
Record AddCall := mkAddCall {
  add_documents_arg : list string;
  add_embeddings_arg : list (list Q);
  add_metadatas_arg : list Metadata;
  add_ids_arg : list string
}.

(** The id generated for the metadata at position [i]:
    [f"{meta.get('dataset_id', 'unknown')}_{meta.get('chunk_index', i)}"]. *)
Definition generated_id (i : nat) (meta : Metadata) : string :=
  RAGPipeline.str_of_meta (default (MetaStr "unknown") (meta !! "dataset_id"))
  +:+ "_"
  +:+ RAGPipeline.str_of_meta (default (MetaInt (Z.of_nat i)) (meta !! "chunk_index")).

(** [add_documents]: the calls it makes to [collection.add], none when
    there is no text. *)
Definition add_documents (texts : list string) (embeddings : list (list Q))
    (metadatas : list Metadata) (ids : option (list string)) : list AddCall :=
  match texts with
  | [] => []
  | _ :: _ =>
      let ids :=
        match ids with
        | None => imap generated_id metadatas
        | Some ids => ids
        end in
      [mkAddCall texts embeddings metadatas ids]
  end.

End VectorStoreWrites.

(** ** [app/core/embeddings.py] and [app/services/ingestion.py] *)

Module IngestionService.
Import VectorStore VectorStoreWrites.

(** [EmbeddingService.embed_documents]: the model is not asked for an
    empty list; [encode] is the sentence-transformer model, [None] when it
    raises. *)
Definition embed_documents (encode : list string -> option (list (list Q)))
    (texts : list string) : option (list (list Q)) :=
  match texts with
  | [] => Some []
  | _ :: _ => encode texts
  end.

(** The dictionary [ingest_text] returns. *)
Inductive IngestReport :=
| NoChunksCreated (dataset_id dataset_name : string)
| Success (dataset_id dataset_name : string) (num_chunks file_size : Z)
          (created_at : string).

(** The metadata dictionary of one chunk. *)
Definition chunk_metadata (dataset_id dataset_name source_title created_at : string)
    (chunk : Chunking.Chunk) : Metadata :=
  <[ "dataset_id" := MetaStr dataset_id ]>
  (<[ "dataset_name" := MetaStr dataset_name ]>
  (<[ "source_title" := MetaStr source_title ]>
  (<[ "chunk_index" := MetaInt (Chunking.chunk_index chunk) ]>
  (<[ "char_count" := MetaInt (Chunking.char_count chunk) ]>
  (<[ "created_at" := MetaStr created_at ]> ∅))))).

(** What an ingestion did: the calls made to [collection.add] and the
    report returned. *)
Record Ingestion := mkIngestion {
  added : list AddCall;
  report : IngestReport
}.

(** [ingest_text].  [uuid4] is the identifier drawn when none is given,
    [utcnow] the time stamp read, [encode] the embedding model.  [None]:
    the chunker ran out of fuel or the model raised. *)
Definition ingest_text (fuel : nat) (uuid4 utcnow : string)
    (encode : list string -> option (list (list Q)))
    (text dataset_name source_title : string) (dataset_id : option string)
    (chunk_size chunk_overlap : Z) (chunking_strategy : Chunking.Strategy)
    : option Ingestion :=
  let dataset_id := default uuid4 dataset_id in
  chunks ← Chunking.chunk_text fuel text chunk_size chunk_overlap chunking_strategy;
  match chunks with
  | [] => Some (mkIngestion [] (NoChunksCreated dataset_id dataset_name))
  | _ :: _ =>
      let chunk_texts := map Chunking.text chunks in
      embeddings ← embed_documents encode chunk_texts;
      let created_at := utcnow in
      let metadatas :=
        map (chunk_metadata dataset_id dataset_name source_title created_at) chunks in
      let calls := add_documents chunk_texts embeddings metadatas None in
      Some (mkIngestion calls
              (Success dataset_id dataset_name (Z.of_nat (length chunks))
                       (Py.len text) created_at))
  end.

End IngestionService.

(** ** [app/core/llm_client.py] and [app/core/rag_pipeline.py]: one query *)

Module Pipeline.
Import VectorStore.

(** [int(x)] on a float: truncation towards zero. *)
Definition int_of_float (x : Q) : Z := Z.quot (Qnum x) (Z.pos (Qden x)).

(** The integer nearest to [x], ties going to the even one. *)
Definition round_half_even (x : Q) : Z :=
  let n := Qnum x in
  let d := Z.pos (Qden x) in
  let q := n / d in
  let r := n mod d in
  if 2 * r <? d then q
  else if 2 * r >? d then q + 1
  else if Z.even q then q else q + 1.

(** [round(x, 4)] *)
Definition round4 (x : Q) : Q :=
  (inject_Z (round_half_even (x * 10000)) / 10000)%Q.

(** A computation on the services around the pipeline: it reads and
    changes their state [W], and either returns or raises ([None]). *)
Definition Eff (W A : Type) : Type := W -> option A * W.

Definition ret {W A : Type} (x : A) : Eff W A := fun w => (Some x, w).

Definition bind {W A B : Type} (c : Eff W A) (k : A -> Eff W B) : Eff W B :=
  fun w =>
    match c w with
    | (Some x, w') => k x w'
    | (None, w') => (None, w')
    end.

(** A step that reads the state and changes nothing. *)
Definition peek {W A : Type} (f : W -> option A) : Eff W A := fun w => (f w, w).

Notation "'let*' x ':=' c 'in' k" := (bind c (fun x => k))
  (at level 10, x name, c at level 100, k at level 200).

(** A row of the [datasets] table, as far as [query] reads it. *)
Record DatasetRow := mkDatasetRow {
  ds_id : string;
  ds_enabled : bool
}.

(** [EmbeddingService.get_info()] *)
Record EmbeddingInfo := mkEmbeddingInfo {
  model_name : string;
  dimensions : Z;
  max_seq_length : Z
}.

(** The answer of the chat-completions API, as far as [generate] reads it:
    the message contents of the choices and the usage counters. *)
Record Completion := mkCompletion {
  choices : list string;
  usage_prompt_tokens : Z;
  usage_completion_tokens : Z;
  usage_total_tokens : Z
}.

(** The services the pipeline calls. *)
Record Services (W : Type) := mkServices {
  (* time.time() *)
  time_time : Eff W Q;
  (* get_database().list_datasets() *)
  list_datasets : Eff W (list DatasetRow);
  (* embedding_service.model.encode(query, ...).tolist() *)
  encode_query : string -> Eff W (list Q);
  embedding_info : EmbeddingInfo;
  (* the vector store as it stands; search only reads it *)
  vector_store : W -> VectorStore;
  (* settings.system_prompt.format(retrieved_chunks=c, user_query=q) *)
  system_prompt_format : string -> string -> option string;
  (* client.chat.completions.create(model, messages, temperature, max_tokens) *)
  chat_completions_create : string -> string -> Q -> Z -> Eff W Completion
}.
Arguments time_time {W} _.
Arguments list_datasets {W} _.
Arguments encode_query {W} _.
Arguments embedding_info {W} _.
Arguments vector_store {W} _.
Arguments system_prompt_format {W} _.
Arguments chat_completions_create {W} _.

(** The dictionary [LLMClient.generate] returns. *)
Record Generation := mkGeneration {
  gen_text : string;
  gen_prompt_tokens : Z;
  gen_completion_tokens : Z;
  gen_total_tokens : Z;
  gen_latency_ms : Z;
  gen_cost : Q;
  gen_model : string;
  gen_temperature : Q
}.

(** The [details] of the three steps of the trace. *)
Record EmbeddingDetails := mkEmbeddingDetails {
  emb_model : string;
  emb_dimensions : Z;
  emb_query_text : string;
  emb_vector_preview : list Q;
  emb_vector_length : Z
}.

Record ChunkData := mkChunkData {
  cd_text : string;
  cd_score : Q;
  cd_metadata : Metadata
}.

(** The [enabled_datasets] entry of the retrieval request:
    [enabled_datasets or "all"]. *)
Inductive ScopeLabel := LabelAll | LabelDatasets (dataset_ids : list string).

Record RetrievalDetails := mkRetrievalDetails {
  ret_chunks_found : Z;
  ret_chunks : list ChunkData;
  ret_query_embedding_preview : list Q;
  ret_vector_length : Z;
  ret_top_k : Z;
  ret_enabled_datasets : ScopeLabel;
  ret_min_score : Q;
  ret_chunks_retrieved : Z;
  ret_chunks_data : list (string * Q)
}.

Record GenerationDetails := mkGenerationDetails {
  det_model : string;
  det_prompt_tokens : Z;
  det_completion_tokens : Z;
  det_total_tokens : Z;
  det_cost : Q;
  det_temperature : Q;
  det_request_prompt : string;
  det_request_model : string;
  det_request_temperature : Q;
  det_request_max_tokens : Z;
  det_generated_text : string;
  det_tokens_used : Z
}.

Inductive StepDetails :=
| Embedding (details : EmbeddingDetails)
| Retrieval (details : RetrievalDetails)
| Generated (details : GenerationDetails).

Record Step := mkStep {
  name : string;
  latency_ms : Z;
  details : StepDetails
}.

(** The dictionary [query] returns. *)
Record Response := mkResponse {
  answer : string;
  total_latency_ms : Z;
  steps : list Step;
  full_prompt : string
}.

Section WithServices.
Context {W : Type}.
Variable self : Services W.

(** [LLMClient.generate] *)
Definition generate (prompt model : string) (temperature : Q) (max_tokens : Z)
    : Eff W Generation :=
  let* start_time := time_time self in
  let* response := chat_completions_create self model prompt temperature max_tokens in
  let* now := time_time self in
  let latency_ms := int_of_float ((now - start_time) * 1000) in
  let* text := peek (fun _ => choices response !! 0%nat) in
  let prompt_tokens := usage_prompt_tokens response in
  let completion_tokens := usage_completion_tokens response in
  let total_tokens := usage_total_tokens response in
  let* cost := peek (fun _ => LLMClient._calculate_cost model prompt_tokens completion_tokens) in
  ret (mkGeneration text prompt_tokens completion_tokens total_tokens latency_ms
                    cost model temperature).

(** [RAGPipeline.query] *)
Definition query (query : string) (top_k : Z) (enabled_datasets : option (list string))
    (model : string) (temperature : Q) (max_tokens : Z) (min_score : Q)
    : Eff W Response :=
  let* pipeline_start := time_time self in
  let* enabled_datasets :=
    match enabled_datasets with
    | None =>
        let* all_datasets := list_datasets self in
        ret (map ds_id (List.filter ds_enabled all_datasets))
    | Some enabled_datasets => ret enabled_datasets
    end in
  let steps := [] in
  (* Step 1 *)
  let* embedding_start := time_time self in
  let* query_embedding := encode_query self query in
  let* now := time_time self in
  let embedding_latency := int_of_float ((now - embedding_start) * 1000) in
  let embedding_info := embedding_info self in
  let steps := steps ++
    [mkStep "embedding" embedding_latency
       (Embedding (mkEmbeddingDetails (model_name embedding_info)
                     (dimensions embedding_info) query
                     (take 5 query_embedding) (Z.of_nat (length query_embedding))))] in
  (* Step 2 *)
  let* retrieval_start := time_time self in
  let* retrieved_chunks :=
    peek (fun w => returned (search (vector_store self w) query_embedding top_k
                                    (Some enabled_datasets) min_score)) in
  let* now := time_time self in
  let retrieval_latency := int_of_float ((now - retrieval_start) * 1000) in
  let chunks_data :=
    map (fun chunk => mkChunkData (text chunk) (round4 (score chunk)) (metadata chunk))
        retrieved_chunks in
  let steps := steps ++
    [mkStep "retrieval" retrieval_latency
       (Retrieval (mkRetrievalDetails
          (Z.of_nat (length retrieved_chunks)) chunks_data
          (take 5 query_embedding) (Z.of_nat (length query_embedding)) top_k
          (match enabled_datasets with
           | [] => LabelAll
           | _ :: _ => LabelDatasets enabled_datasets
           end)
          min_score
          (Z.of_nat (length retrieved_chunks))
          (map (fun chunk => (text chunk, round4 (score chunk))) retrieved_chunks)))] in
  (* Step 3 *)
  let context := RAGPipeline._format_context retrieved_chunks in
  let* full_prompt := peek (fun _ => system_prompt_format self context query) in
  (* Step 4 *)
  let* llm_start := time_time self in
  let* llm_response := generate full_prompt model temperature max_tokens in
  let* now := time_time self in
  let llm_latency := int_of_float ((now - llm_start) * 1000) in
  let steps := steps ++
    [mkStep "llm_generation" llm_latency
       (Generated (mkGenerationDetails
          (gen_model llm_response) (gen_prompt_tokens llm_response)
          (gen_completion_tokens llm_response) (gen_total_tokens llm_response)
          (gen_cost llm_response) (gen_temperature llm_response)
          full_prompt model temperature max_tokens
          (gen_text llm_response) (gen_total_tokens llm_response)))] in
  let* now := time_time self in
  let total_latency := int_of_float ((now - pipeline_start) * 1000) in
  ret (mkResponse (gen_text llm_response) total_latency steps full_prompt).

End WithServices.

End Pipeline.

(** * Properties *)

(** ** Strings and slices *)

Section PyFacts.
Import Py.

Lemma length_substring (s : string) (n m : nat) :
  String.length (String.substring n m s) = (m `min` (String.length s - n))%nat.
Proof.
  revert n m. induction s as [|c s IH]; intros [|n] [|m];
    cbn [String.substring String.length]; rewrite ?IH; lia.
Qed.

Lemma len_nonneg (s : string) : 0 <= len s.
Proof. unfold len. lia. Qed.

(** A window that starts inside the text and ends beyond it holds the
    rest of the text. *)
Lemma len_slice_past_end (s : string) (start stop : Z) :
  0 <= start <= len s -> len s <= stop ->
  len (slice s start stop) = len s - start.
Proof.
  intros Hs Hstop. unfold slice, adjust.
  destruct (Z.ltb_spec start 0); [lia|].
  destruct (Z.ltb_spec stop 0); [pose proof (len_nonneg s); lia|].
  unfold len in *. rewrite length_substring. lia.
Qed.
End PyFacts.

(** ** The character chunker's loop *)

Section CharsLoop.
Import Py Chunking.

Variables (text : string) (chunk_size chunk_overlap : Z).

(** The window at [start] is dropped by the [if chunk_text.strip()] test. *)
Definition blank_window (start : Z) : Prop :=
  truthy (strip (slice text start (start + chunk_size))) = false.

(** The chunk the loop body appends for the window at [start]. *)
Definition window_chunk (start chunk_index : Z) : Chunk :=
  mkChunk (slice text start (start + chunk_size)) chunk_index start
          (start + chunk_size) (len (slice text start (start + chunk_size))).

(** One unfolding of the loop, with the two tests spelled out. *)
Lemma chars_loop_unfold (fuel : nat) (start ci : Z) (chunks : list Chunk) :
  chars_loop (S fuel) text chunk_size chunk_overlap start ci chunks =
  if start <? len text then
    let chunks' := if truthy (strip (slice text start (start + chunk_size)))
                   then chunks ++ [window_chunk start ci] else chunks in
    let ci' := if truthy (strip (slice text start (start + chunk_size)))
               then ci + 1 else ci in
    if start + chunk_size - chunk_overlap >=? len text then Some chunks'
    else chars_loop fuel text chunk_size chunk_overlap
                    (start + chunk_size - chunk_overlap) ci' chunks'
  else Some chunks.
Proof.
  cbn [chars_loop]. unfold window_chunk.
  destruct (start <? len text); [|done].
  by destruct (truthy (strip (slice text start (start + chunk_size)))).
Qed.

(** More fuel never changes an answer already obtained. *)
Lemma chars_loop_more_fuel (fuel fuel' : nat) (start ci : Z) (chunks r : list Chunk) :
  (fuel <= fuel')%nat ->
  chars_loop fuel text chunk_size chunk_overlap start ci chunks = Some r ->
  chars_loop fuel' text chunk_size chunk_overlap start ci chunks = Some r.
Proof.
  revert fuel' start ci chunks.
  induction fuel as [|fuel IH]; intros [|fuel'] start ci chunks Hle; try done; [lia|].
  rewrite !chars_loop_unfold.
  destruct (start <? len text); [|done]. cbv zeta.
  destruct (start + chunk_size - chunk_overlap >=? len text); [done|].
  apply IH. lia.
Qed.

(** With no positive advance the loop never leaves a start inside the
    text: the test after the advance cannot fire either. *)
Lemma chars_loop_diverges (fuel : nat) (start ci : Z) (chunks : list Chunk) :
  chunk_size <= chunk_overlap -> start < len text ->
  chars_loop fuel text chunk_size chunk_overlap start ci chunks = None.
Proof.
  intros Hstep. revert start ci chunks.
  induction fuel as [|fuel IH]; intros start ci chunks Hstart; [done|].
  rewrite chars_loop_unfold.
  destruct (Z.ltb_spec start (len text)); [|lia]. cbv zeta.
  rewrite Z.geb_leb.
  destruct (Z.leb_spec (len text) (start + chunk_size - chunk_overlap)); [lia|].
  apply IH. lia.
Qed.

(** With a positive advance, one unit of fuel per remaining character
    (and one more) is enough. *)
Lemma chars_loop_terminates (fuel : nat) (start ci : Z) (chunks : list Chunk) :
  chunk_overlap < chunk_size ->
  (Z.to_nat (len text - start) < fuel)%nat ->
  exists r, chars_loop fuel text chunk_size chunk_overlap start ci chunks = Some r.
Proof.
  intros Hstep. revert start ci chunks.
  induction fuel as [|fuel IH]; intros start ci chunks Hfuel.
  - lia.
  - rewrite chars_loop_unfold.
    destruct (Z.ltb_spec start (len text)); [|by eexists]. cbv zeta.
    rewrite Z.geb_leb.
    destruct (Z.leb_spec (len text) (start + chunk_size - chunk_overlap));
      [by eexists|].
    apply IH. lia.
Qed.

(** A loop invariant carries over to the answer: [I] relates the list
    built so far to the loop's [start] and [chunk_index]. *)
Lemma chars_loop_invariant (I : list Chunk -> Z -> Z -> Prop) :
  (forall chunks start ci, I chunks start ci -> start < len text ->
     blank_window start ->
     I chunks (start + chunk_size - chunk_overlap) ci) ->
  (forall chunks start ci, I chunks start ci -> start < len text ->
     ~ blank_window start ->
     I (chunks ++ [window_chunk start ci]) (start + chunk_size - chunk_overlap) (ci + 1)) ->
  forall fuel start ci chunks r,
    I chunks start ci ->
    chars_loop fuel text chunk_size chunk_overlap start ci chunks = Some r ->
    exists start' ci', I r start' ci'.
Proof.
  intros Hskip Hemit fuel.
  induction fuel as [|fuel IH]; intros start ci chunks r HI; [done|].
  rewrite chars_loop_unfold.
  destruct (Z.ltb_spec start (len text)) as [Hlt|]; [|intros [= <-]; eauto].
  cbv zeta. unfold blank_window in *.
  destruct (truthy (strip (slice text start (start + chunk_size)))) eqn:Hw.
  - assert (I (chunks ++ [window_chunk start ci])
              (start + chunk_size - chunk_overlap) (ci + 1)) as HI'
      by (apply Hemit; [done..|congruence]).
    destruct (start + chunk_size - chunk_overlap >=? len text);
      [intros [= <-]; eauto|by apply IH].
  - assert (I chunks (start + chunk_size - chunk_overlap) ci) as HI'
      by (by apply Hskip).
    destruct (start + chunk_size - chunk_overlap >=? len text);
      [intros [= <-]; eauto|by apply IH].
Qed.
End CharsLoop.

(** ** Properties of the character chunker *)

Section CharacterChunks.
Import Py Chunking.

(** [chunk_by_characters] answers exactly when the text is empty or the
    window advances. *)
Lemma chunk_by_characters_terminates (text : string) (chunk_size chunk_overlap : Z) :
  text = EmptyString \/ chunk_overlap < chunk_size ->
  exists r, chunk_by_characters (S (String.length text)) text
              chunk_size chunk_overlap = Some r.
Proof.
  unfold chunk_by_characters. intros [->|Hstep]; [by eexists|].
  destruct (negb (truthy text)); [by eexists|].
  apply chars_loop_terminates; [done|]. unfold len. lia.
Qed.

Lemma chunk_by_characters_diverges (text : string) (chunk_size chunk_overlap : Z) :
  text <> EmptyString -> chunk_size <= chunk_overlap ->
  forall fuel, chunk_by_characters fuel text chunk_size chunk_overlap = None.
Proof.
  intros Htext Hstep fuel. unfold chunk_by_characters.
  destruct text as [|c text]; [done|]. cbn [truthy negb].
  apply chars_loop_diverges; [done|]. unfold len. cbn [String.length]. lia.
Qed.

Lemma chunk_by_characters_more_fuel (fuel fuel' : nat) (text : string)
    (chunk_size chunk_overlap : Z) (r : list Chunk) :
  (fuel <= fuel')%nat ->
  chunk_by_characters fuel text chunk_size chunk_overlap = Some r ->
  chunk_by_characters fuel' text chunk_size chunk_overlap = Some r.
Proof.
  unfold chunk_by_characters. intros Hle.
  destruct (negb (truthy text)); [done|]. by apply chars_loop_more_fuel.
Qed.

(** An answer of the chunker is an answer of its loop started on the
    empty list, which is all an invariant needs. *)
Lemma chunk_by_characters_invariant (text : string) (chunk_size chunk_overlap : Z)
    (I : list Chunk -> Z -> Z -> Prop) :
  (forall chunks start ci, I chunks start ci -> start < len text ->
     blank_window text chunk_size start ->
     I chunks (start + chunk_size - chunk_overlap) ci) ->
  (forall chunks start ci, I chunks start ci -> start < len text ->
     ~ blank_window text chunk_size start ->
     I (chunks ++ [window_chunk text chunk_size start ci])
       (start + chunk_size - chunk_overlap) (ci + 1)) ->
  I [] 0 0 ->
  forall fuel r,
    chunk_by_characters fuel text chunk_size chunk_overlap = Some r ->
    exists start ci, I r start ci.
Proof.
  intros Hskip Hemit H0 fuel r. unfold chunk_by_characters.
  destruct (negb (truthy text)); [intros [= <-]; eauto|].
  by apply chars_loop_invariant.
Qed.

(** The result of the scenario of the spec, as the code computes it. *)
Definition scenario_chunks : list Chunk :=
  [ mkChunk "abcd" 0 0 4 4; mkChunk "defg" 1 3 7 4;
    mkChunk "ghij" 2 6 10 4; mkChunk "j" 3 9 13 1 ].

(** C2, as the code behaves: [chunk_by_characters("abcdefghij", 4, 1)]
    returns four chunks, the three full windows ["abcd"] (0-4), ["defg"]
    (3-7), ["ghij"] (6-10) and then the tail window ["j"] (9-13), with
    [chunk_index] 0, 1, 2, 3: after the third window the next start is 9,
    which is still inside the text. *)
Theorem chunk_by_characters_scenario (fuel : nat) :
  chunk_by_characters (4 + fuel) "abcdefghij" 4 1 = Some scenario_chunks.
Proof. vm_compute. reflexivity. Qed.

(** C2 as stated fails: [chunk_by_characters("abcdefghij", 4, 1)] returns
    four chunks, the last one being ["j"] (9-13), and no run of it returns a
    list of three chunks. *)
Lemma chunk_by_characters_scenario_not_three :
  (exists r,
     chunk_by_characters 4 "abcdefghij" 4 1 = Some r
     /\ length r = 4%nat /\ r !! 3%nat = Some (mkChunk "j" 3 9 13 1))
  /\ ~ exists fuel r,
        chunk_by_characters fuel "abcdefghij" 4 1 = Some r /\ length r = 3%nat.
Proof.
  split; [by exists scenario_chunks|].
  intros (fuel & r & Hrun & Hlen).
  apply (chunk_by_characters_more_fuel fuel (4 + fuel)) in Hrun; [|lia].
  vm_compute in Hrun. injection Hrun as <-. discriminate Hlen.
Qed.

(** C3 fails on the code: with [chunk_overlap = chunk_size] the start never
    moves, the test after the advance never fires, and the loop of
    [chunk_by_characters("a", 1, 1)] runs for ever, whatever the fuel. *)
Theorem chunk_by_characters_equal_overlap_loops (fuel : nat) :
  chunk_by_characters fuel "a" 1 1 = None.
Proof. by apply chunk_by_characters_diverges. Qed.
End CharacterChunks.

(** ** Numbering of the chunks *)

Section ChunkIndex.
Import Py Chunking.

(** Read in list order, the [chunk_index] fields are 0, 1, ..., n-1. *)
Definition indexed_from_zero (r : list Chunk) : Prop :=
  chunk_index <$> r = seqZ 0 (Z.of_nat (length r)).

(** What both loops maintain: the list is numbered from zero and the
    counter is the number the next chunk gets. *)
Definition numbered (chunks : list Chunk) (ci : Z) : Prop :=
  indexed_from_zero chunks /\ ci = Z.of_nat (length chunks).

Lemma numbered_nil : numbered [] 0.
Proof. done. Qed.

Lemma numbered_snoc (chunks : list Chunk) (ci : Z) (c : Chunk) :
  numbered chunks ci -> chunk_index c = ci -> numbered (chunks ++ [c]) (ci + 1).
Proof.
  unfold numbered, indexed_from_zero. intros [Hidx ->] Hc.
  rewrite fmap_app, length_app, Hidx. cbn [length fmap list_fmap].
  split; [|lia].
  replace (Z.of_nat (length chunks + 1)) with (Z.of_nat (length chunks) + 1) by lia.
  rewrite seqZ_app by lia. by rewrite Hc.
Qed.

Lemma sentence_step_numbered (chunk_size chunk_overlap : Z)
    (st : SentenceState) (sentence : string) :
  numbered (st_chunks st) (st_chunk_index st) ->
  numbered (st_chunks (sentence_step chunk_size chunk_overlap st sentence))
           (st_chunk_index (sentence_step chunk_size chunk_overlap st sentence)).
Proof.
  destruct st as [chunks cur ci pos]. cbn [st_chunks st_chunk_index].
  intros Hn. unfold sentence_step.
  destruct (truthy cur && (len cur + len sentence + 1 >? chunk_size)).
  - destruct ((chunk_overlap >? 0) && (len cur >? chunk_overlap));
      cbn [st_chunks st_chunk_index]; by apply numbered_snoc.
  - by destruct (truthy cur).
Qed.

Lemma sentence_loop_numbered (chunk_size chunk_overlap : Z)
    (sentences : list string) (st : SentenceState) :
  numbered (st_chunks st) (st_chunk_index st) ->
  numbered (st_chunks (fold_left (sentence_step chunk_size chunk_overlap) sentences st))
           (st_chunk_index (fold_left (sentence_step chunk_size chunk_overlap) sentences st)).
Proof.
  revert st. induction sentences as [|s sentences IH]; intros st Hn; [done|].
  cbn [fold_left]. by apply IH, sentence_step_numbered.
Qed.

Lemma chunk_by_characters_numbered (fuel : nat) (text : string)
    (chunk_size chunk_overlap : Z) (r : list Chunk) :
  chunk_by_characters fuel text chunk_size chunk_overlap = Some r ->
  indexed_from_zero r.
Proof.
  intros Hrun.
  destruct (chunk_by_characters_invariant text chunk_size chunk_overlap
              (fun chunks _ ci => numbered chunks ci)) with (fuel := fuel) (r := r)
    as (_ & ci & [Hr _]); auto using numbered_nil.
  intros chunks start ci Hn _ _. by apply numbered_snoc.
Qed.

Lemma chunk_by_sentences_numbered (fuel : nat) (text : string)
    (chunk_size chunk_overlap : Z) (r : list Chunk) :
  chunk_by_sentences fuel text chunk_size chunk_overlap = Some r ->
  indexed_from_zero r.
Proof.
  unfold chunk_by_sentences.
  destruct (negb (truthy text)); [by intros [= <-]|].
  destruct (map strip (List.filter (fun s => truthy (strip s)) (re_split_sentences text)))
    as [|s sentences] eqn:Hs; [apply chunk_by_characters_numbered|].
  pose proof (sentence_loop_numbered chunk_size chunk_overlap (s :: sentences)
                (mkSentenceState [] EmptyString 0 0) numbered_nil) as Hn.
  destruct (fold_left _ _ _) as [chunks cur ci pos]. cbn [st_chunks st_chunk_index] in Hn.
  destruct (truthy (strip cur)); intros [= <-]; [|by destruct Hn].
  by eapply numbered_snoc.
Qed.

(** The sentence chunker answers without fuel unless it falls back to
    the character chunker. *)
Lemma chunk_by_sentences_terminates (text : string) (chunk_size chunk_overlap : Z) :
  text = EmptyString \/ chunk_overlap < chunk_size ->
  exists r, chunk_by_sentences (S (String.length text)) text
              chunk_size chunk_overlap = Some r.
Proof.
  intros Hok. unfold chunk_by_sentences.
  destruct (negb (truthy text)); [by eexists|].
  destruct (map strip _) as [|s sentences];
    [by apply chunk_by_characters_terminates|].
  destruct (fold_left _ _ _) as [chunks cur ci pos].
  destruct (truthy (strip cur)); by eexists.
Qed.

(** C6: for every text and both strategies, the [chunk_index] values of
    the chunks produced, read in list order, are exactly 0, 1, ..., n-1;
    and both strategies do produce a list whenever the text is empty or
    [chunk_overlap < chunk_size]. *)
Theorem chunk_index_contiguous (text : string) (chunk_size chunk_overlap : Z) :
  (forall fuel r,
     chunk_by_characters fuel text chunk_size chunk_overlap = Some r ->
     chunk_index <$> r = seqZ 0 (Z.of_nat (length r)))
  /\ (forall fuel r,
        chunk_by_sentences fuel text chunk_size chunk_overlap = Some r ->
        chunk_index <$> r = seqZ 0 (Z.of_nat (length r)))
  /\ (text = EmptyString \/ chunk_overlap < chunk_size ->
      exists r1 r2,
        chunk_by_characters (S (String.length text)) text
          chunk_size chunk_overlap = Some r1
        /\ chunk_by_sentences (S (String.length text)) text
             chunk_size chunk_overlap = Some r2).
Proof.
  split_and!.
  - intros fuel r. apply chunk_by_characters_numbered.
  - intros fuel r. apply chunk_by_sentences_numbered.
  - intros Hok.
    destruct (chunk_by_characters_terminates text chunk_size chunk_overlap Hok) as [r1 H1].
    destruct (chunk_by_sentences_terminates text chunk_size chunk_overlap Hok) as [r2 H2].
    eauto.
Qed.

(** The sentence chunker on three short sentences, size 12 and overlap 4. *)
Definition three_sentences : list Chunk :=
  [ mkChunk "One two." 0 1 9 8; mkChunk "two. Three four!" 1 5 21 16;
    mkChunk "our! Five?" 2 17 27 10 ].

Lemma chunk_index_contiguous_witness :
  chunk_index <$> scenario_chunks = seqZ 0 (Z.of_nat (length scenario_chunks))
  /\ chunk_index <$> three_sentences = seqZ 0 (Z.of_nat (length three_sentences))
  /\ exists r1 r2,
       chunk_by_characters 11 "abcdefghij" 4 1 = Some r1
       /\ chunk_by_sentences 11 "abcdefghij" 4 1 = Some r2.
Proof.
  split_and!.
  - apply (proj1 (chunk_index_contiguous "abcdefghij" 4 1) 4%nat scenario_chunks).
    reflexivity.
  - apply (proj1 (proj2 (chunk_index_contiguous "One two. Three four! Five?" 12 4))
             0%nat three_sentences).
    reflexivity.
  - apply (proj2 (proj2 (chunk_index_contiguous "abcdefghij" 4 1))).
    right. reflexivity.
Defined.
End ChunkIndex.

(** ** Positions recorded by the character chunker *)

Section ChunkPositions.
Import Py Chunking.

Variables (text : string) (chunk_size chunk_overlap : Z).

(** [b] lies [k] advances after [a], and the [k - 1] windows in between
    were all dropped as blank. *)
Definition advances_from (a b : Z) : Prop :=
  exists k, 1 <= k /\ b = a + k * (chunk_size - chunk_overlap)
            /\ forall j, 1 <= j < k ->
                 blank_window text chunk_size (a + j * (chunk_size - chunk_overlap)).

(** Every chunk starts some advances after its predecessor. *)
Definition chained (chunks : list Chunk) : Prop :=
  forall i c1 c2, chunks !! i = Some c1 -> chunks !! S i = Some c2 ->
    advances_from (start_char c1) (start_char c2).

(** The loop invariant behind it: the list is chained and the current
    start lies some advances after the last chunk emitted. *)
Definition chained_upto (chunks : list Chunk) (start : Z) : Prop :=
  chained chunks
  /\ forall c, last chunks = Some c -> advances_from (start_char c) start.

Lemma chained_upto_skip (chunks : list Chunk) (start : Z) :
  chained_upto chunks start -> blank_window text chunk_size start ->
  chained_upto chunks (start + chunk_size - chunk_overlap).
Proof.
  intros [Hch Hlast] Hblank. split; [done|].
  intros c Hc. destruct (Hlast c Hc) as (k & Hk & -> & Hbetween).
  exists (k + 1). split_and!; [lia..|].
  intros j Hj. destruct (decide (j = k)) as [->|]; [done|].
  apply Hbetween. lia.
Qed.

Lemma chained_upto_emit (chunks : list Chunk) (start ci : Z) :
  chained_upto chunks start ->
  chained_upto (chunks ++ [window_chunk text chunk_size start ci])
               (start + chunk_size - chunk_overlap).
Proof.
  intros [Hch Hlast]. split.
  - intros i c1 c2 H1 H2.
    destruct (decide (S i < length chunks)%nat).
    + rewrite lookup_app_l in H1 by lia. rewrite lookup_app_l in H2 by lia. eauto.
    + assert (S i = length chunks) as Hi.
      { apply lookup_lt_Some in H2. rewrite length_app in H2. simpl in H2. lia. }
      rewrite lookup_app_l in H1 by lia.
      rewrite lookup_app_r, Hi, Nat.sub_diag in H2 by lia.
      injection H2 as <-. cbn [start_char window_chunk].
      apply Hlast. rewrite last_lookup. rewrite <- Hi. done.
  - intros c. rewrite last_snoc. intros [= <-]. cbn [start_char window_chunk].
    exists 1. split_and!; [lia..|]. intros j Hj. lia.
Qed.

Lemma chunk_by_characters_chained (fuel : nat) (r : list Chunk) :
  chunk_by_characters fuel text chunk_size chunk_overlap = Some r -> chained r.
Proof.
  intros Hrun.
  destruct (chunk_by_characters_invariant text chunk_size chunk_overlap
              (fun chunks start _ => chained_upto chunks start))
    with (fuel := fuel) (r := r) as (start & _ & [Hr _]); auto.
  - intros chunks start _ H _ Hb. by apply chained_upto_skip.
  - intros chunks start ci H _ _. by apply chained_upto_emit.
  - split; [intros i c1 c2 Hc; done|done].
Qed.

(** What every recorded chunk looks like: the window it was cut from
    starts inside the text, [end_char] is the window's nominal end and
    [char_count] the length of what the slice really held. *)
Definition window_record (c : Chunk) : Prop :=
  0 <= start_char c < len text
  /\ end_char c = start_char c + chunk_size
  /\ Chunking.text c = slice text (start_char c) (end_char c)
  /\ char_count c = len (Chunking.text c).

Lemma chunk_by_characters_window_records (fuel : nat) (r : list Chunk) :
  chunk_by_characters fuel text chunk_size chunk_overlap = Some r ->
  Forall window_record r.
Proof.
  intros Hrun.
  destruct (Z.le_gt_cases chunk_size chunk_overlap) as [Hle|Hstep].
  { destruct text as [|c s] eqn:Htext; [by injection Hrun as <-|].
    rewrite <- Htext in Hrun.
    rewrite chunk_by_characters_diverges in Hrun; [done|by subst|done]. }
  destruct (chunk_by_characters_invariant text chunk_size chunk_overlap
              (fun chunks start _ => 0 <= start /\ Forall window_record chunks))
    with (fuel := fuel) (r := r) as (start & _ & [_ Hr]); auto.
  - intros chunks start _ [H0 H] _ _. split; [lia|done].
  - intros chunks start ci [H0 H] Hlt _. split; [lia|].
    apply Forall_app. split; [done|]. apply Forall_singleton.
    unfold window_record. cbn. split_and!; [lia..|done|done|done].
  - split; [lia|constructor].
Qed.
End ChunkPositions.

Section ChunkPositionClaims.
Import Py Chunking.

(** C7 as stated: consecutive chunks start exactly one advance apart. *)
Definition starts_one_advance_apart (text : string) (chunk_size chunk_overlap : Z) : Prop :=
  forall fuel r i c1 c2,
    chunk_by_characters fuel text chunk_size chunk_overlap = Some r ->
    r !! i = Some c1 -> r !! S i = Some c2 ->
    start_char c2 = start_char c1 + (chunk_size - chunk_overlap).

(** C7 as stated fails when a window is all whitespace: in ["a b"] cut with
    size 1 and overlap 0 the window [" "] is dropped, so the chunks ["a"]
    and ["b"] start at 0 and 2, two advances apart. *)
Lemma starts_one_advance_apart_fails :
  chunk_by_characters 3 "a b" 1 0
  = Some [mkChunk "a" 0 0 1 1; mkChunk "b" 1 2 3 1]
  /\ ~ starts_one_advance_apart "a b" 1 0.
Proof.
  split; [done|]. intros H.
  specialize (H 3%nat [mkChunk "a" 0 0 1 1; mkChunk "b" 1 2 3 1] 0%nat
                (mkChunk "a" 0 0 1 1) (mkChunk "b" 1 2 3 1)
                eq_refl eq_refl eq_refl).
  discriminate H.
Qed.

(** C7, as the code behaves: with [chunk_overlap < chunk_size] the
    chunker answers, and the [start_char] values of consecutive chunks of
    its answer increase by a positive multiple [k] of
    [chunk_size - chunk_overlap], the [k - 1] windows in between being the
    ones dropped because they are empty once stripped; the increase is
    exactly [chunk_size - chunk_overlap] when the window after the first of
    the two chunks is not blank. *)
Theorem start_char_advances (text : string) (chunk_size chunk_overlap : Z) :
  chunk_overlap < chunk_size ->
  (exists r, chunk_by_characters (S (String.length text)) text
               chunk_size chunk_overlap = Some r)
  /\ forall fuel r i c1 c2,
       chunk_by_characters fuel text chunk_size chunk_overlap = Some r ->
       r !! i = Some c1 -> r !! S i = Some c2 ->
       (exists k, 1 <= k
          /\ start_char c2 = start_char c1 + k * (chunk_size - chunk_overlap)
          /\ forall j, 1 <= j < k ->
               truthy (strip (slice text
                 (start_char c1 + j * (chunk_size - chunk_overlap))
                 (start_char c1 + j * (chunk_size - chunk_overlap) + chunk_size)))
               = false)
       /\ (truthy (strip (slice text
             (start_char c1 + (chunk_size - chunk_overlap))
             (start_char c1 + (chunk_size - chunk_overlap) + chunk_size))) = true ->
           start_char c2 = start_char c1 + (chunk_size - chunk_overlap)).
Proof.
  intros Hstep. split; [apply chunk_by_characters_terminates; by right|].
  intros fuel r i c1 c2 Hrun H1 H2.
  destruct (chunk_by_characters_chained _ _ _ _ _ Hrun i c1 c2 H1 H2)
    as (k & Hk & Hc2 & Hbetween).
  split; [by exists k|].
  intros Hnext. destruct (decide (k = 1)) as [->|]; [lia|].
  assert (1 <= 1 < k) as H1k by lia.
  specialize (Hbetween 1 H1k). unfold blank_window in Hbetween.
  rewrite Z.mul_1_l in Hbetween. congruence.
Qed.

Lemma start_char_advances_witness :
  exists k, 1 <= k
    /\ start_char (mkChunk "b" 1 2 3 1) = start_char (mkChunk "a" 0 0 1 1) + k * (1 - 0)
    /\ forall j, 1 <= j < k ->
         truthy (strip (slice "a b"
           (start_char (mkChunk "a" 0 0 1 1) + j * (1 - 0))
           (start_char (mkChunk "a" 0 0 1 1) + j * (1 - 0) + 1))) = false.
Proof.
  assert (0 < 1) as Hstep by lia.
  apply (proj2 (start_char_advances "a b" 1 0 Hstep) 3%nat
           [mkChunk "a" 0 0 1 1; mkChunk "b" 1 2 3 1] 0%nat
           (mkChunk "a" 0 0 1 1) (mkChunk "b" 1 2 3 1));
    reflexivity.
Defined.

(** C10: every chunk of [chunk_by_characters] records
    [end_char = start_char + chunk_size] and [char_count] equal to the
    length of its text, the slice of the input between the two positions;
    so a chunk whose window ends beyond the text has
    [end_char > len(text)] while it holds only the
    [len(text) - start_char] characters that were left, fewer than
    [end_char - start_char]. *)
Theorem end_char_is_nominal (fuel : nat) (text : string)
    (chunk_size chunk_overlap : Z) (r : list Chunk) :
  chunk_by_characters fuel text chunk_size chunk_overlap = Some r ->
  forall c, c ∈ r ->
    end_char c = start_char c + chunk_size
    /\ char_count c = len (Chunking.text c)
    /\ Chunking.text c = slice text (start_char c) (end_char c)
    /\ (len text < end_char c ->
        char_count c = len text - start_char c
        /\ char_count c < end_char c - start_char c).
Proof.
  intros Hrun c Hc.
  pose proof (chunk_by_characters_window_records _ _ _ _ _ Hrun) as Hall.
  rewrite Forall_forall in Hall.
  destruct (Hall c Hc) as (Hstart & Hend & Htext & Hcount).
  split_and!; [done..|].
  intros Hpast. rewrite Hcount, Htext.
  rewrite len_slice_past_end by lia. lia.
Qed.

(** The last chunk of ["abcde"] cut with size 4 and overlap 1: its window
    is 3-7, of which the text holds two characters. *)
Lemma end_char_is_nominal_witness :
  chunk_by_characters 5 "abcde" 4 1
  = Some [mkChunk "abcd" 0 0 4 4; mkChunk "de" 1 3 7 2]
  /\ len "abcde" < end_char (mkChunk "de" 1 3 7 2)
  /\ char_count (mkChunk "de" 1 3 7 2)
     = len "abcde" - start_char (mkChunk "de" 1 3 7 2)
  /\ char_count (mkChunk "de" 1 3 7 2)
     < end_char (mkChunk "de" 1 3 7 2) - start_char (mkChunk "de" 1 3 7 2).
Proof.
  assert (chunk_by_characters 5 "abcde" 4 1
          = Some [mkChunk "abcd" 0 0 4 4; mkChunk "de" 1 3 7 2]) as Hrun
    by reflexivity.
  assert (mkChunk "de" 1 3 7 2 ∈ [mkChunk "abcd" 0 0 4 4; mkChunk "de" 1 3 7 2])
    as Hin by (right; left).
  assert (len "abcde" < end_char (mkChunk "de" 1 3 7 2)) as Hpast by reflexivity.
  split_and!; [exact Hrun|exact Hpast|..];
    apply (end_char_is_nominal 5 "abcde" 4 1 _ Hrun _ Hin); exact Hpast.
Defined.
End ChunkPositionClaims.

(** ** The retrieval filter *)

Section SearchFacts.
Import Py VectorStore.

Lemma float_lt_spec (x y : Q) : float_lt x y = true <-> (x < y)%Q.
Proof.
  unfold float_lt. rewrite negb_true_iff, <- not_true_iff_false, Qle_bool_iff.
  split; [apply Qnot_le_lt|apply Qlt_not_le].
Qed.

Lemma float_lt_false (x y : Q) : float_lt x y = false <-> (y <= x)%Q.
Proof.
  unfold float_lt. rewrite negb_false_iff. apply Qle_bool_iff.
Qed.



Variable results : QueryResult.

(** What the loop puts in the list for position [i] of the index's answer. *)
Definition converted (min_score : Q) (i : nat) (doc : Document) : Prop :=
  exists d,
    first_at (distances results) i = Some d
    /\ first_at (documents results) i = Some (text doc)
    /\ first_at (metadatas results) i = Some (metadata doc)
    /\ first_at (ids results) i = Some (id doc)
    /\ score doc = (1 - d ^ 2 / 2)%Q
    /\ (min_score <= score doc)%Q.

Lemma search_loop_converted (min_score : Q) (range : list nat)
    (docs r : list Document) :
  search_loop results min_score range docs = Some r ->
  Forall (fun doc => exists i, converted min_score i doc) docs ->
  Forall (fun doc => exists i, converted min_score i doc) r.
Proof.
  revert docs. induction range as [|i range IH]; intros docs; cbn [search_loop].
  { by intros [= <-]. }
  destruct (first_at (distances results) i) as [d|] eqn:Hd; [|done].
  cbn [mbind option_bind].
  destruct (float_lt (1 - d ^ 2 / 2) min_score) eqn:Hlt; [apply IH|].
  destruct (first_at (documents results) i) as [t|] eqn:Ht; [|done].
  destruct (first_at (metadatas results) i) as [m|] eqn:Hm; [|done].
  destruct (first_at (ids results) i) as [k|] eqn:Hk; [|done].
  cbn [mbind option_bind]. intros Hrun Hdocs. apply (IH _ Hrun).
  apply Forall_app. split; [done|]. apply Forall_singleton.
  exists i, d. cbn. by rewrite <- float_lt_false.
Qed.

(** A higher threshold keeps no more candidates. *)
Lemma search_loop_monotone (m1 m2 : Q) (range : list nat)
    (docs1 docs2 r1 r2 : list Document) :
  (m1 <= m2)%Q ->
  search_loop results m1 range docs1 = Some r1 ->
  search_loop results m2 range docs2 = Some r2 ->
  (length r2 + length docs1 <= length r1 + length docs2)%nat.
Proof.
  intros Hm. revert docs1 docs2.
  induction range as [|i range IH]; intros docs1 docs2; cbn [search_loop].
  { intros [= <-] [= <-]. lia. }
  destruct (first_at (distances results) i) as [d|]; [|done].
  cbn [mbind option_bind].
  destruct (float_lt (1 - d ^ 2 / 2) m1) eqn:H1;
    destruct (float_lt (1 - d ^ 2 / 2) m2) eqn:H2.
  - apply IH.
  - apply float_lt_spec in H1. apply float_lt_false in H2. lra.
  - destruct (first_at (documents results) i) as [t|]; [|done].
    destruct (first_at (metadatas results) i) as [m|]; [|done].
    destruct (first_at (ids results) i) as [k|]; [|done].
    cbn [mbind option_bind]. intros Hr1 Hr2.
    pose proof (IH _ _ Hr1 Hr2) as Hlen. rewrite length_app in Hlen. simpl in Hlen. lia.
  - destruct (first_at (documents results) i) as [t|]; [|done].
    destruct (first_at (metadatas results) i) as [m|]; [|done].
    destruct (first_at (ids results) i) as [k|]; [|done].
    cbn [mbind option_bind]. intros Hr1 Hr2.
    pose proof (IH _ _ Hr1 Hr2) as Hlen. rewrite !length_app in Hlen. simpl in Hlen. lia.
Qed.

(** The answer for the first (and only) query embedding holds four lists
    of one length, as ChromaDB builds it. *)
Definition aligned : Prop :=
  forall ids0, ids results !! 0%nat = Some ids0 ->
    exists ds ts ms,
      distances results !! 0%nat = Some ds
      /\ documents results !! 0%nat = Some ts
      /\ metadatas results !! 0%nat = Some ms
      /\ length ds = length ids0 /\ length ts = length ids0
      /\ length ms = length ids0.

Lemma search_loop_returns (min_score : Q) (ids0 : list string)
    (range : list nat) (docs : list Document) :
  aligned -> ids results !! 0%nat = Some ids0 ->
  Forall (fun i => (i < length ids0)%nat) range ->
  exists r, search_loop results min_score range docs = Some r.
Proof.
  intros Hal Hids. destruct (Hal _ Hids) as (ds & ts & ms & Hds & Hts & Hms & Ld & Lt & Lm).
  revert docs. induction range as [|i range IH]; intros docs Hrange; cbn [search_loop].
  { by eexists. }
  apply Forall_cons in Hrange as [Hi Hrange].
  unfold first_at. rewrite Hds, Hts, Hms, Hids. cbn [mbind option_bind].
  destruct (lookup_lt_is_Some_2 ds i) as [d ->]; [lia|].
  destruct (lookup_lt_is_Some_2 ts i) as [t ->]; [lia|].
  destruct (lookup_lt_is_Some_2 ms i) as [m ->]; [lia|].
  destruct (lookup_lt_is_Some_2 ids0 i) as [k ->]; [lia|].
  cbn [mbind option_bind].
  destruct (float_lt (1 - d ^ 2 / 2) min_score); by apply IH.
Qed.

Lemma process_results_returns (min_score : Q) :
  aligned -> exists r, process_results results min_score = Some r.
Proof.
  intros Hal. unfold process_results.
  destruct (ids results) as [|[|k ids0] rest] eqn:Hids; [by eexists..|].
  apply search_loop_returns with (ids0 := k :: ids0); [done|by rewrite Hids|].
  apply Forall_forall. intros i Hi. apply elem_of_seq in Hi. lia.
Qed.
End SearchFacts.

(** ** Properties of [VectorStore.search] *)

Section SearchClaims.
Import Py VectorStore.

(** An index holding one entry at distance 0 of every query. *)
Definition one_hit_store : VectorStore :=
  mkVectorStore "rag_learning_prototype"
    (fun _ => Some (mkQueryResult [["fables_0"]] [[0%Q]] [["The Fox and the Grapes"]]
                                  [[ {[ "dataset_id" := MetaStr "fables" ]} ]])).

(** The entry [search] builds from it. *)
Definition one_hit : Document :=
  mkDocument "The Fox and the Grapes" (1 - 0 ^ 2 / 2)%Q
             {[ "dataset_id" := MetaStr "fables" ]} "fables_0".

(** Unless the scope is the empty list, [search] sends one query, whose
    arguments do not depend on [min_score], and converts its answer. *)
Lemma search_unfold (self : VectorStore) (query_embedding : list Q) (top_k : Z)
    (enabled_datasets : option (list string)) :
  enabled_datasets <> Some [] ->
  exists call,
    query_embeddings call = [query_embedding] /\ n_results call = top_k
    /\ (enabled_datasets = None -> where_ call = None)
    /\ forall min_score,
         search self query_embedding top_k enabled_datasets min_score
         = mkRun [call] (results ← collection_query self call;
                         process_results results min_score).
Proof.
  intros Hds. destruct enabled_datasets as [[|d [|d' ds]]|]; [done|..];
    eexists; split_and!; try reflexivity; done.
Qed.

Lemma process_results_converted (results : QueryResult) (min_score : Q)
    (r : list Document) :
  process_results results min_score = Some r ->
  Forall (fun doc => exists i, converted results min_score i doc) r.
Proof.
  unfold process_results.
  destruct (ids results) as [|[|k ids0] rest]; [by intros [= <-]..|].
  intros Hrun. by apply (search_loop_converted _ _ _ _ _ Hrun).
Qed.

Lemma process_results_monotone (results : QueryResult) (m1 m2 : Q)
    (r1 r2 : list Document) :
  (m1 <= m2)%Q ->
  process_results results m1 = Some r1 -> process_results results m2 = Some r2 ->
  (length r2 <= length r1)%nat.
Proof.
  unfold process_results. intros Hm.
  destruct (ids results) as [|[|k ids0] rest];
    [by intros [= <-] [= <-]..|].
  intros H1 H2.
  pose proof (search_loop_monotone _ _ _ _ _ _ _ _ Hm H1 H2). simpl in *. lia.
Qed.

(** Every returned entry is the conversion of one answer of the query
    that [search] sent. *)
Lemma search_converted (self : VectorStore) (query_embedding : list Q) (top_k : Z)
    (enabled_datasets : option (list string)) (min_score : Q)
    (docs : list Document) (doc : Document) :
  returned (search self query_embedding top_k enabled_datasets min_score) = Some docs ->
  doc ∈ docs ->
  exists call results i,
    queries (search self query_embedding top_k enabled_datasets min_score) = [call]
    /\ collection_query self call = Some results
    /\ converted results min_score i doc.
Proof.
  intros Hrun Hdoc.
  destruct (decide (enabled_datasets = Some [])) as [->|Hds].
  { injection Hrun as <-. by apply elem_of_nil in Hdoc. }
  destruct (search_unfold self query_embedding top_k _ Hds) as (call & _ & _ & _ & Heq).
  rewrite Heq in Hrun |- *. cbn [returned queries] in *.
  destruct (collection_query self call) as [results|] eqn:Hq; [|done].
  cbn [mbind option_bind] in Hrun.
  apply process_results_converted in Hrun. rewrite Forall_forall in Hrun.
  destruct (Hrun doc Hdoc) as [i Hi]. by exists call, results, i.
Qed.



(** C4: for a fixed query embedding, [top_k], scope and index, no entry
    returned by [search] has a score below [min_score], and a higher
    [min_score] does not return more entries; [search] does return a list
    whenever the index answers with lists of one length. *)
Theorem min_score_filter (self : VectorStore) (query_embedding : list Q)
    (top_k : Z) (enabled_datasets : option (list string)) :
  (forall min_score docs doc,
     returned (search self query_embedding top_k enabled_datasets min_score) = Some docs ->
     doc ∈ docs -> ~ (score doc < min_score)%Q)
  /\ (forall m1 m2 r1 r2,
        (m1 <= m2)%Q ->
        returned (search self query_embedding top_k enabled_datasets m1) = Some r1 ->
        returned (search self query_embedding top_k enabled_datasets m2) = Some r2 ->
        (length r2 <= length r1)%nat)
  /\ ((forall call, exists results,
         collection_query self call = Some results /\ aligned results) ->
      forall min_score, exists docs,
        returned (search self query_embedding top_k enabled_datasets min_score)
        = Some docs).
Proof.
  split_and!.
  - intros min_score docs doc Hrun Hdoc.
    destruct (search_converted _ _ _ _ _ _ _ Hrun Hdoc)
      as (call & results & i & _ & _ & d & _ & _ & _ & _ & _ & Hmin).
    by apply Qle_not_lt.
  - intros m1 m2 r1 r2 Hm.
    destruct (decide (enabled_datasets = Some [])) as [->|Hds].
    { by intros [= <-] [= <-]. }
    destruct (search_unfold self query_embedding top_k _ Hds) as (call & _ & _ & _ & Heq).
    rewrite !Heq. cbn [returned].
    destruct (collection_query self call) as [results|]; [|done].
    by apply process_results_monotone.
  - intros Hindex min_score.
    destruct (decide (enabled_datasets = Some [])) as [->|Hds]; [by eexists|].
    destruct (search_unfold self query_embedding top_k _ Hds) as (call & _ & _ & _ & Heq).
    rewrite Heq. cbn [returned].
    destruct (Hindex call) as (results & -> & Hal).
    by apply process_results_returns.
Qed.

(** On the one-entry index: the entry, of score 1, passes the threshold
    1/2 and not the threshold 3/2. *)
Lemma min_score_filter_witness :
  ~ (score one_hit < 1 # 2)%Q
  /\ (length (@nil Document) <= length [one_hit])%nat
  /\ exists docs, returned (search one_hit_store [1%Q] 5 None (1 # 2)%Q) = Some docs.
Proof.
  split_and!.
  - apply (proj1 (min_score_filter one_hit_store [1%Q] 5 None) (1 # 2)%Q [one_hit] one_hit).
    + reflexivity.
    + left.
  - apply (proj1 (proj2 (min_score_filter one_hit_store [1%Q] 5 None))
             (1 # 2)%Q (3 # 2)%Q [one_hit] []).
    + discriminate.
    + reflexivity.
    + reflexivity.
  - apply (proj2 (proj2 (min_score_filter one_hit_store [1%Q] 5 None))).
    intros call. eexists. split; [reflexivity|].
    intros ids0 Hids. injection Hids as <-.
    eexists _, _, _. split_and!; reflexivity.
Defined.

(** C5: called with the empty list of dataset identifiers, [search]
    returns the empty list and sends no query to the index; called with no
    scope ([None]) it sends one query with no [where] filter and returns
    what it converts from the answer; the two calls differ on an index that
    holds an entry. *)
Theorem search_empty_scope_vs_no_scope :
  (forall self query_embedding top_k min_score,
     search self query_embedding top_k (Some []) min_score = mkRun [] (Some []))
  /\ (forall self query_embedding top_k min_score,
        search self query_embedding top_k None min_score
        = mkRun [mkQueryCall [query_embedding] top_k None]
                (results ← collection_query self
                             (mkQueryCall [query_embedding] top_k None);
                 process_results results min_score))
  /\ (exists doc,
        returned (search one_hit_store [1%Q] 5 None 0%Q) = Some [doc]
        /\ returned (search one_hit_store [1%Q] 5 (Some []) 0%Q) = Some []).
Proof.
  split_and!; [done..|].
  eexists. split; reflexivity.
Qed.
End SearchClaims.

(** ** The context block of the prompt *)

Section FormatContext.
Import Py VectorStore RAGPipeline.

(** The prompt assembly in the words of its description: the labelled
    block of one chunk, ... *)
Definition labeled_block (rank : Z) (source_title : string) (score : Q)
    (text : string) : string :=
  "[Source " +:+ str_of_int rank +:+ ": " +:+ source_title
  +:+ " (relevance: " +:+ format_2f score +:+ ")]" +:+ newline +:+ text.

(** ... blocks joined by blank lines, ... *)
Fixpoint join_blank_lines (blocks : list string) : string :=
  match blocks with
  | [] => EmptyString
  | [block] => block
  | block :: blocks => block +:+ newline +:+ newline +:+ join_blank_lines blocks
  end.

(** ... the title a chunk is labelled with ([Unknown] when its metadata
    has none), ... *)
Definition source_title_of (chunk : Document) : string :=
  match metadata chunk !! "source_title" with
  | Some title => str_of_meta title
  | None => "Unknown"
  end.

(** ... and the whole context: one block per chunk, ranked from 1 in the
    order retrieved, or the sentinel when nothing was retrieved. *)
Definition context_block (chunks : list Document) : string :=
  match chunks with
  | [] => "No relevant context found."
  | _ :: _ =>
      join_blank_lines
        (imap (fun k chunk => labeled_block (Z.of_nat k + 1) (source_title_of chunk)
                                (score chunk) (text chunk))
              chunks)
  end.

Lemma format_entry_labeled (i : Z) (chunk : Document) :
  format_entry i chunk
  = labeled_block i (source_title_of chunk) (score chunk) (text chunk).
Proof.
  unfold format_entry, labeled_block, source_title_of.
  by destruct (metadata chunk !! "source_title").
Qed.

Lemma format_loop_spec (i : Z) (chunks : list Document) (formatted : list string) :
  format_loop i chunks formatted
  = formatted ++ imap (fun k chunk => format_entry (Z.of_nat k + i) chunk) chunks.
Proof.
  revert i formatted. induction chunks as [|chunk chunks IH]; intros i formatted.
  - cbn. by rewrite app_nil_r.
  - cbn [format_loop]. rewrite IH, imap_cons, <- app_assoc. cbn [app].
    do 2 f_equal. apply imap_ext. intros k c _. cbn. f_equal. lia.
Qed.

Lemma concat_blank_lines (blocks : list string) :
  String.concat (newline +:+ newline) blocks = join_blank_lines blocks.
Proof.
  induction blocks as [|block [|block' blocks] IH]; [done..|].
  cbn [String.concat join_blank_lines] in *. by rewrite IH.
Qed.

(** C9: the context string is the sentinel [No relevant context found.]
    when no chunk was retrieved, and otherwise the labelled blocks
    [[Source rank: title (relevance: score to two decimals)]], a line break
    and the chunk's text, one per chunk in the order retrieved with ranks
    counted from 1, joined by blank lines. *)
Theorem format_context_blocks (chunks : list Document) :
  _format_context chunks = context_block chunks.
Proof.
  destruct chunks as [|chunk chunks]; [done|].
  unfold _format_context, context_block.
  rewrite concat_blank_lines, format_loop_spec. cbn [app]. f_equal.
  apply imap_ext. intros k c _. cbn. rewrite format_entry_labeled. f_equal.
Qed.

(** Two retrieved chunks, the second without a title and with a score that
    lies half way between two hundredths. *)
Example format_context_two_chunks :
  _format_context
    [ mkDocument "Sour grapes." (7 # 8)%Q {[ "source_title" := MetaStr "Fables" ]} "f_0";
      mkDocument "Slow and steady." (1 # 8)%Q ∅ "f_1" ]
  = "[Source 1: Fables (relevance: 0.88)]" +:+ newline +:+ "Sour grapes."
    +:+ newline +:+ newline
    +:+ "[Source 2: Unknown (relevance: 0.12)]" +:+ newline +:+ "Slow and steady.".
Proof. vm_compute. reflexivity. Qed.

Example format_context_no_chunk :
  _format_context [] = "No relevant context found.".
Proof. reflexivity. Qed.
End FormatContext.

(** ** Keyword coverage *)

Section KeywordCoverage.
Import Py EvaluationService.

(** [sub] is a substring of [s]. *)
Definition occurs_in (sub s : string) : Prop :=
  exists before after, s = before +:+ sub +:+ after.

Lemma append_cons (c : ascii) (s t : string) :
  String c s +:+ t = String c (s +:+ t).
Proof. reflexivity. Qed.

Lemma prefix_spec (sub s : string) :
  String.prefix sub s = true <-> exists after, s = sub +:+ after.
Proof.
  revert s. induction sub as [|a sub IH]; intros s.
  - destruct s; cbn; split; eauto.
  - destruct s as [|b s]; cbn [String.prefix]; setoid_rewrite append_cons.
    + split; [done|]. by intros [after ?].
    + destruct (ascii_dec a b) as [->|Hab].
      * rewrite IH. split; intros [after Hs]; exists after; congruence.
      * split; [done|]. intros [after Hs]. congruence.
Qed.

Lemma contains_spec (sub s : string) :
  contains sub s = true <-> occurs_in sub s.
Proof.
  split.
  - induction s as [|c s IH]; cbn [contains]; rewrite orb_true_iff, prefix_spec.
    + intros [[after ->]|]; [|done]. by exists EmptyString, after.
    + intros [[after ->]|Hs]; [by exists EmptyString, after|].
      destruct (IH Hs) as (before & after & ->). by exists (String c before), after.
  - intros (before & after & ->).
    induction before as [|c before IH].
    + change (EmptyString +:+ sub +:+ after) with (sub +:+ after).
      assert (String.prefix sub (sub +:+ after) = true) as Hp
        by (apply prefix_spec; by exists after).
      destruct (sub +:+ after); cbn [contains]; by rewrite Hp.
    + rewrite append_cons. cbn [contains]. by rewrite IH, orb_true_r.
Qed.

Lemma filter_sublist {A : Type} (f : A -> bool) (l : list A) :
  sublist (List.filter f l) l.
Proof.
  induction l as [|x l IH]; cbn [List.filter]; [done|].
  destruct (f x); by constructor.
Qed.

Context {Pipeline Config : Type}.
Variable query : Pipeline -> string -> Config -> option (Response * Pipeline).

(** The responses the pipeline gives to the questions, asked in order. *)
Fixpoint pipeline_responses (rag_pipeline : Pipeline) (config : Config)
    (test_questions : list TestQuestion) : option (list Response) :=
  match test_questions with
  | [] => Some []
  | test_q :: test_questions =>
      '(response, rag_pipeline) ← query rag_pipeline (question test_q) config;
      responses ← pipeline_responses rag_pipeline config test_questions;
      Some (response :: responses)
  end.

Lemma batch_loop_spec (rag_pipeline : Pipeline) (config : Config)
    (test_questions : list TestQuestion) (results : list QuestionResult) :
  batch_loop query rag_pipeline config test_questions results
  = (responses ← pipeline_responses rag_pipeline config test_questions;
     Some (results ++ zip_with evaluate_question test_questions responses)).
Proof.
  revert rag_pipeline results.
  induction test_questions as [|test_q test_questions IH]; intros rag_pipeline results.
  - cbn. by rewrite app_nil_r.
  - cbn [batch_loop pipeline_responses].
    destruct (query rag_pipeline (question test_q) config) as [[response p]|]; [|done].
    cbn [mbind option_bind]. rewrite IH.
    destruct (pipeline_responses p config test_questions) as [responses|]; [|done].
    cbn. by rewrite <- app_assoc.
Qed.

Lemma pipeline_responses_length (rag_pipeline : Pipeline) (config : Config)
    (test_questions : list TestQuestion) (responses : list Response) :
  pipeline_responses rag_pipeline config test_questions = Some responses ->
  length responses = length test_questions.
Proof.
  revert rag_pipeline responses.
  induction test_questions as [|test_q test_questions IH]; intros p responses.
  - by intros [= <-].
  - cbn [pipeline_responses].
    destruct (query p (question test_q) config) as [[response p']|]; [|done].
    cbn [mbind option_bind].
    destruct (pipeline_responses p' config test_questions) as [rs|] eqn:Hrs; [|done].
    intros [= <-]. cbn. f_equal. by eapply IH.
Qed.
End KeywordCoverage.

Section KeywordCoverageClaim.
Import Py EvaluationService.

(** What the loop body records for one question and the answer generated
    for it. *)
Lemma evaluate_question_spec (test_q : TestQuestion) (response : Response) :
  let res := evaluate_question test_q response in
  r_answer res = answer response
  /\ r_expected_keywords res = expected_keywords test_q
  /\ sublist (r_keywords_found res) (expected_keywords test_q)
  /\ (forall kw, kw ∈ r_keywords_found res <->
        kw ∈ expected_keywords test_q
        /\ occurs_in (lower kw) (lower (answer response)))
  /\ r_keyword_coverage res
     = match expected_keywords test_q with
       | [] => 0%Q
       | _ :: _ => (inject_Z (list_len (r_keywords_found res))
                    / inject_Z (list_len (expected_keywords test_q)))%Q
       end.
Proof.
  cbn. split_and!; [done|done|apply filter_sublist| |done].
  intros kw. rewrite !list_elem_of_In, filter_In, contains_spec. done.
Qed.

(** The pipeline of the scenario: it answers every question with the same
    sentence. *)
Definition fox_pipeline (_ : unit) (_ : string) (_ : unit) : option (Response * unit) :=
  Some (mkResponse "the quick brown fox" (mkObservability 120 "prompt"), tt).

(** C8: in batch evaluation the entry recorded for each question keeps,
    in their order, exactly the expected keywords whose lower-cased form is
    a substring of the lower-cased answer generated for that question, and
    its [keyword_coverage] is the number of keywords found over the number
    expected, 0 when none is expected; for the answer [the quick brown fox]
    and the expected keywords [quick], [slow] this gives [quick] alone and a
    coverage of one half. *)
Theorem keyword_coverage_counts {Pipeline Config : Type}
    (query : Pipeline -> string -> Config -> option (Response * Pipeline))
    (test_questions : list TestQuestion) (rag_pipeline : Pipeline) (config : Config)
    (batch : BatchResult) :
  evaluate_batch query test_questions rag_pipeline config = Some batch ->
  (exists responses,
     pipeline_responses query rag_pipeline config test_questions = Some responses
     /\ length (results batch) = length test_questions
     /\ forall i test_q response,
          test_questions !! i = Some test_q -> responses !! i = Some response ->
          exists res,
            results batch !! i = Some res
            /\ r_answer res = answer response
            /\ r_expected_keywords res = expected_keywords test_q
            /\ sublist (r_keywords_found res) (expected_keywords test_q)
            /\ (forall kw, kw ∈ r_keywords_found res <->
                  kw ∈ expected_keywords test_q
                  /\ occurs_in (lower kw) (lower (answer response)))
            /\ r_keyword_coverage res
               = match expected_keywords test_q with
                 | [] => 0%Q
                 | _ :: _ => (inject_Z (list_len (r_keywords_found res))
                              / inject_Z (list_len (expected_keywords test_q)))%Q
                 end)
  /\ (exists res,
        evaluate_batch fox_pipeline [mkTestQuestion "What jumps?" ["quick"; "slow"]] tt tt
        = Some res
        /\ r_keywords_found <$> results res = [["quick"]]
        /\ r_keyword_coverage <$> results res = [(1 # 2)%Q]).
Proof.
  intros Hrun. split; [|by eexists].
  unfold evaluate_batch in Hrun. rewrite batch_loop_spec in Hrun.
  destruct (pipeline_responses query rag_pipeline config test_questions)
    as [responses|] eqn:Hrs; [|done].
  injection Hrun as <-. cbn [results app].
  pose proof (pipeline_responses_length _ _ _ _ _ Hrs) as Hlen.
  exists responses. split_and!; [done|by rewrite length_zip_with; lia|].
  intros i test_q response Hq Hr.
  exists (evaluate_question test_q response). split.
  - rewrite lookup_zip_with, Hq. cbn. by rewrite Hr.
  - apply evaluate_question_spec.
Qed.

(** A batch of two questions put to the pipeline of the scenario; the
    second expects no keyword. *)
Definition fox_questions : list TestQuestion :=
  [ mkTestQuestion "What jumps?" ["QUICK"; "slow"; "Fox"];
    mkTestQuestion "Anything?" [] ].

Lemma keyword_coverage_counts_witness :
  exists batch,
    evaluate_batch fox_pipeline fox_questions tt tt = Some batch
    /\ r_keywords_found <$> results batch = [["QUICK"; "Fox"]; []]
    /\ r_keyword_coverage <$> results batch = [(2 # 3)%Q; 0%Q]
    /\ exists responses,
         pipeline_responses fox_pipeline tt tt fox_questions = Some responses
         /\ length (results batch) = length fox_questions.
Proof.
  eexists. split; [reflexivity|]. split; [reflexivity|]. split; [reflexivity|].
  destruct (proj1 (keyword_coverage_counts fox_pipeline fox_questions tt tt _ eq_refl))
    as (responses & Hrs & Hlen & _).
  exists responses. split; [exact Hrs|exact Hlen].
Defined.
End KeywordCoverageClaim.


(** * Further properties of the chunkers *)

(** ** Whitespace and stripping *)

Section Ink.
Import Py.

(** [s] holds a character that is not whitespace. *)
Fixpoint has_ink (s : string) : bool :=
  match s with
  | EmptyString => false
  | String c r => negb (isspace c) || has_ink r
  end.

Lemma truthy_lstrip (s : string) : truthy (lstrip s) = has_ink s.
Proof.
  induction s as [|c r IH]; [done|]. cbn [lstrip has_ink].
  by destruct (isspace c).
Qed.

Lemma rstrip_ink (s : string) :
  truthy (rstrip s) = has_ink s /\ has_ink (rstrip s) = has_ink s.
Proof.
  induction s as [|c r [IHt IHi]]; [done|]. cbn [rstrip has_ink].
  destruct (rstrip r) as [|c' r'] eqn:Hr.
  - cbn in IHt. rewrite <- IHt.
    destruct (isspace c) eqn:Hc; cbn; by rewrite ?Hc.
  - cbn [truthy] in IHt. rewrite <- IHt, orb_true_r. split; [done|].
    change (has_ink (String c (String c' r')))
      with (negb (isspace c) || has_ink (String c' r')).
    by rewrite IHi, <- IHt, orb_true_r.
Qed.

(** [s.strip()] is non-empty exactly when [s] is not all whitespace. *)
Lemma truthy_strip (s : string) : truthy (strip s) = has_ink s.
Proof.
  unfold strip. rewrite truthy_lstrip. apply rstrip_ink.
Qed.

Lemma has_ink_app (a b : string) : has_ink (a +:+ b) = has_ink a || has_ink b.
Proof.
  induction a as [|c a IH]; [done|].
  change (String c a +:+ b) with (String c (a +:+ b)).
  cbn [has_ink]. by rewrite IH, orb_assoc.
Qed.

Lemma has_ink_get (s : string) (p : nat) (c : ascii) :
  String.get p s = Some c -> isspace c = false -> has_ink s = true.
Proof.
  revert p. induction s as [|c' r IH]; intros p; [done|].
  destruct p as [|p]; cbn [String.get has_ink].
  - intros [= ->] ->. done.
  - intros Hget Hc. by rewrite (IH p), orb_true_r.
Qed.

Lemma get_has_ink (s : string) :
  has_ink s = true -> exists p c, String.get p s = Some c /\ isspace c = false.
Proof.
  induction s as [|c' r IH]; [done|]. cbn [has_ink].
  destruct (isspace c') eqn:Hc; cbn [negb orb].
  - intros Hr. destruct (IH Hr) as (p & c & Hget & Hsp). by exists (S p), c.
  - intros _. by exists 0%nat, c'.
Qed.

Lemma get_lt (s : string) (p : nat) (c : ascii) :
  String.get p s = Some c -> (p < String.length s)%nat.
Proof.
  revert p. induction s as [|c' r IH]; intros [|p]; cbn; try done; [lia|].
  intros Hget. apply IH in Hget. lia.
Qed.

(** A window that starts at or before position [p] and ends after it holds
    the character at [p]. *)
Lemma get_slice (s : string) (start stop : Z) (p : nat) (c : ascii) :
  String.get p s = Some c ->
  0 <= start <= Z.of_nat p -> Z.of_nat p < stop ->
  String.get (p - Z.to_nat start) (slice s start stop) = Some c.
Proof.
  intros Hget Hstart Hstop. pose proof (get_lt _ _ _ Hget) as Hlt.
  unfold slice, adjust, len.
  destruct (Z.ltb_spec start 0); [lia|].
  destruct (Z.ltb_spec stop 0); [lia|].
  rewrite String.substring_correct1 by lia.
  rewrite <- Hget. f_equal. lia.
Qed.

(** The length of a window that starts inside the text. *)
Lemma len_slice_window (s : string) (start size : Z) :
  0 <= start < len s -> 0 < size ->
  len (slice s start (start + size)) = Z.min size (len s - start).
Proof.
  intros Hstart Hsize. unfold slice, adjust.
  destruct (Z.ltb_spec start 0); [lia|].
  destruct (Z.ltb_spec (start + size) 0); [lia|].
  unfold len in *. rewrite length_substring. lia.
Qed.
End Ink.

(** ** What the character chunker returns *)

Section CharacterChunksMore.
Import Py Chunking.

(** As [chars_loop_invariant], and the loop is left with its start at or
    beyond the end of the text. *)
Lemma chars_loop_invariant_exit (text : string) (chunk_size chunk_overlap : Z)
    (I : list Chunk -> Z -> Z -> Prop) :
  (forall chunks start ci, I chunks start ci -> start < len text ->
     blank_window text chunk_size start ->
     I chunks (start + chunk_size - chunk_overlap) ci) ->
  (forall chunks start ci, I chunks start ci -> start < len text ->
     ~ blank_window text chunk_size start ->
     I (chunks ++ [window_chunk text chunk_size start ci])
       (start + chunk_size - chunk_overlap) (ci + 1)) ->
  forall fuel start ci chunks r,
    I chunks start ci ->
    chars_loop fuel text chunk_size chunk_overlap start ci chunks = Some r ->
    exists start' ci', I r start' ci' /\ len text <= start'.
Proof.
  intros Hskip Hemit fuel.
  induction fuel as [|fuel IH]; intros start ci chunks r HI; [done|].
  rewrite chars_loop_unfold.
  destruct (Z.ltb_spec start (len text)) as [Hlt|]; [|intros [= <-]; eauto].
  cbv zeta. unfold blank_window in *. rewrite Z.geb_leb.
  destruct (truthy (strip (slice text start (start + chunk_size)))) eqn:Hw.
  - assert (I (chunks ++ [window_chunk text chunk_size start ci])
              (start + chunk_size - chunk_overlap) (ci + 1)) as HI'
      by (apply Hemit; [done..|congruence]).
    destruct (Z.leb_spec (len text) (start + chunk_size - chunk_overlap));
      [intros [= <-]; eauto|by apply IH].
  - assert (I chunks (start + chunk_size - chunk_overlap) ci) as HI'
      by (by apply Hskip).
    destruct (Z.leb_spec (len text) (start + chunk_size - chunk_overlap));
      [intros [= <-]; eauto|by apply IH].
Qed.

Lemma chunk_by_characters_invariant_exit (text : string) (chunk_size chunk_overlap : Z)
    (I : list Chunk -> Z -> Z -> Prop) :
  (forall chunks start ci, I chunks start ci -> start < len text ->
     blank_window text chunk_size start ->
     I chunks (start + chunk_size - chunk_overlap) ci) ->
  (forall chunks start ci, I chunks start ci -> start < len text ->
     ~ blank_window text chunk_size start ->
     I (chunks ++ [window_chunk text chunk_size start ci])
       (start + chunk_size - chunk_overlap) (ci + 1)) ->
  I [] 0 0 ->
  forall fuel r,
    chunk_by_characters fuel text chunk_size chunk_overlap = Some r ->
    exists start ci, I r start ci /\ len text <= start.
Proof.
  intros Hskip Hemit H0 fuel r. unfold chunk_by_characters.
  destruct text as [|c s] eqn:Htext; cbn [truthy negb].
  - intros [= <-]. exists 0, 0. by split.
  - rewrite <- Htext in *. by apply chars_loop_invariant_exit.
Qed.

(** X1: the character chunker returns exactly when the text is empty or the
    window advances: with [chunk_overlap >= chunk_size] it runs for ever on
    every non-empty text. *)
Theorem chunk_by_characters_returns_iff (text : string) (chunk_size chunk_overlap : Z) :
  (exists fuel r, chunk_by_characters fuel text chunk_size chunk_overlap = Some r)
  <-> text = EmptyString \/ chunk_overlap < chunk_size.
Proof.
  split.
  - intros (fuel & r & Hrun).
    destruct text as [|c s] eqn:Htext; [by left|right].
    destruct (Z.le_gt_cases chunk_size chunk_overlap) as [Hle|]; [|done].
    rewrite <- Htext in Hrun.
    rewrite chunk_by_characters_diverges in Hrun; [done|by subst|done].
  - intros Hok. exists (S (String.length text)).
    by apply chunk_by_characters_terminates.
Qed.

Lemma chunk_by_characters_inked (fuel : nat) (text : string)
    (chunk_size chunk_overlap : Z) (r : list Chunk) :
  chunk_by_characters fuel text chunk_size chunk_overlap = Some r ->
  Forall (fun c => has_ink (Chunking.text c) = true) r.
Proof.
  intros Hrun.
  destruct (chunk_by_characters_invariant text chunk_size chunk_overlap
              (fun chunks _ _ => Forall (fun c => has_ink (Chunking.text c) = true) chunks))
    with (fuel := fuel) (r := r) as (_ & _ & Hr); auto.
  intros chunks start ci H _ Hink. apply Forall_app. split; [done|].
  apply Forall_singleton. cbn. unfold blank_window in Hink.
  rewrite truthy_strip in Hink. by destruct (has_ink _).
Qed.

Lemma has_ink_len (s : string) : has_ink s = true -> 1 <= len s.
Proof. destruct s; [done|]. unfold len. cbn. lia. Qed.

(** X2: no window is recorded empty or longer than asked: with a positive
    [chunk_size], every chunk of the character chunker holds a character
    that is not whitespace and has between 1 and [chunk_size] characters. *)
Theorem character_chunk_sizes (fuel : nat) (text : string)
    (chunk_size chunk_overlap : Z) (r : list Chunk) (c : Chunk) :
  0 < chunk_size ->
  chunk_by_characters fuel text chunk_size chunk_overlap = Some r ->
  c ∈ r ->
  has_ink (Chunking.text c) = true
  /\ 1 <= char_count c <= chunk_size
  /\ char_count c <= len text.
Proof.
  intros Hsize Hrun Hc.
  pose proof (chunk_by_characters_inked _ _ _ _ _ Hrun) as Hink.
  pose proof (chunk_by_characters_window_records _ _ _ _ _ Hrun) as Hrec.
  rewrite Forall_forall in Hink, Hrec.
  specialize (Hink c Hc). destruct (Hrec c Hc) as (Hstart & Hend & Htext & Hcount).
  split; [done|]. apply has_ink_len in Hink.
  rewrite Hcount in *. rewrite Htext, Hend, len_slice_window in * by done. lia.
Qed.

Lemma character_chunk_sizes_witness :
  has_ink "de" = true /\ 1 <= 2 <= 4 /\ 2 <= len "abcde".
Proof.
  assert (0 < 4) as Hsize by lia.
  apply (character_chunk_sizes 5 "abcde" 4 1
           [mkChunk "abcd" 0 0 4 4; mkChunk "de" 1 3 7 2] (mkChunk "de" 1 3 7 2) Hsize).
  - reflexivity.
  - right. left.
Defined.

(** The windows visited so far: the start is the [k]-th multiple of the
    advance, and every earlier window that is not blank is in the list. *)
Definition windows_recorded (text : string) (chunk_size chunk_overlap : Z)
    (chunks : list Chunk) (start : Z) : Prop :=
  exists k, 0 <= k /\ start = k * (chunk_size - chunk_overlap)
    /\ forall j, 0 <= j < k ->
         ~ blank_window text chunk_size (j * (chunk_size - chunk_overlap)) ->
         exists ci, window_chunk text chunk_size (j * (chunk_size - chunk_overlap)) ci
                    ∈ chunks.

Lemma chunk_by_characters_windows_recorded (fuel : nat) (text : string)
    (chunk_size chunk_overlap : Z) (r : list Chunk) :
  chunk_by_characters fuel text chunk_size chunk_overlap = Some r ->
  exists start, windows_recorded text chunk_size chunk_overlap r start
                /\ len text <= start.
Proof.
  intros Hrun.
  destruct (chunk_by_characters_invariant_exit text chunk_size chunk_overlap
              (fun chunks start _ => windows_recorded text chunk_size chunk_overlap chunks start))
    with (fuel := fuel) (r := r) as (start & _ & Hr & Hexit); eauto.
  - intros chunks start _ (k & Hk & -> & Hrec) _ Hblank.
    exists (k + 1). split_and!; [lia..|].
    intros j Hj Hink. destruct (decide (j = k)) as [->|]; [done|].
    apply Hrec; [lia|done].
  - intros chunks start ci (k & Hk & -> & Hrec) _ Hink.
    exists (k + 1). split_and!; [lia..|].
    intros j Hj Hinkj. destruct (decide (j = k)) as [->|].
    + exists ci. apply elem_of_app. right. by apply list_elem_of_singleton.
    + destruct (Hrec j) as [cj Hcj]; [lia|done|].
      exists cj. apply elem_of_app. by left.
  - exists 0. split_and!; [lia..|]. intros j Hj. lia.
Qed.

(** X3: nothing but whitespace is lost: with [0 <= chunk_overlap < chunk_size],
    every character of the text that is not whitespace lies in a returned
    chunk, at the offset its [start_char] gives. *)
Theorem character_chunks_cover (fuel : nat) (text : string)
    (chunk_size chunk_overlap : Z) (r : list Chunk) (p : nat) (ch : ascii) :
  0 <= chunk_overlap < chunk_size ->
  chunk_by_characters fuel text chunk_size chunk_overlap = Some r ->
  String.get p text = Some ch -> isspace ch = false ->
  exists c, c ∈ r
    /\ start_char c <= Z.of_nat p < start_char c + char_count c
    /\ String.get (p - Z.to_nat (start_char c)) (Chunking.text c) = Some ch.
Proof.
  intros Hsize Hrun Hget Hch.
  destruct (chunk_by_characters_windows_recorded _ _ _ _ _ Hrun)
    as (start & (k & Hk & -> & Hrec) & Hexit).
  pose proof (get_lt _ _ _ Hget) as Hp. fold (len text) in Hexit.
  set (step := chunk_size - chunk_overlap) in *.
  assert (0 < step) as Hstep by (unfold step; lia).
  set (j := Z.of_nat p / step).
  assert (j * step <= Z.of_nat p < j * step + step) as Hj.
  { pose proof (Z.div_mod (Z.of_nat p) step ltac:(lia)).
    pose proof (Z.mod_pos_bound (Z.of_nat p) step Hstep). unfold j. lia. }
  assert (0 <= j) as Hj0 by (apply Z.div_pos; lia).
  assert (j < k) as Hjk by (unfold len in Hexit; nia).
  assert (String.get (p - Z.to_nat (j * step))
            (slice text (j * step) (j * step + chunk_size)) = Some ch) as Hin.
  { apply get_slice; [done|nia|unfold step in *; lia]. }
  destruct (Hrec j) as [ci Hci]; [lia| |].
  { unfold blank_window. rewrite truthy_strip, (has_ink_get _ _ _ Hin Hch). done. }
  exists (window_chunk text chunk_size (j * step) ci).
  split; [done|]. cbn [start_char char_count Chunking.text window_chunk].
  split; [|done].
  rewrite len_slice_window by (unfold len; lia || nia). unfold len, step in *. lia.
Qed.

Lemma character_chunks_cover_witness :
  exists c, c ∈ [mkChunk "a" 0 0 1 1; mkChunk "b" 1 2 3 1]
    /\ start_char c <= Z.of_nat 2 < start_char c + char_count c
    /\ String.get (2 - Z.to_nat (start_char c)) (Chunking.text c) = Some "b"%char.
Proof.
  assert (0 <= 0 < 1) as Hsize by lia.
  apply (character_chunks_cover 3 "a b" 1 0 _ 2 "b"%char Hsize); reflexivity.
Defined.
End CharacterChunksMore.

(** ** Stripped strings *)

Section Stripped.
Import Py.

(** The first character of [s] is not whitespace. *)
Definition starts_ink (s : string) : bool :=
  match s with
  | EmptyString => false
  | String c _ => negb (isspace c)
  end.

(** The last character of [s] is not whitespace. *)
Fixpoint ends_ink (s : string) : bool :=
  match s with
  | EmptyString => false
  | String c EmptyString => negb (isspace c)
  | String _ r => ends_ink r
  end.

Lemma append_nil_r (s : string) : s +:+ EmptyString = s.
Proof. induction s as [|c s IH]; [done|]. by rewrite append_cons, IH. Qed.

Lemma append_assoc (a b c : string) : (a +:+ b) +:+ c = a +:+ b +:+ c.
Proof. induction a as [|x a IH]; [done|]. by rewrite !append_cons, IH. Qed.

Lemma len_app (a b : string) : len (a +:+ b) = len a + len b.
Proof.
  unfold len. induction a as [|x a IH]; [done|].
  rewrite append_cons. cbn [String.length]. lia.
Qed.

Lemma starts_ink_lstrip (s : string) :
  truthy (lstrip s) = true -> starts_ink (lstrip s) = true.
Proof.
  induction s as [|c r IH]; [done|]. cbn [lstrip].
  destruct (isspace c) eqn:Hc; [done|]. intros _. cbn. by rewrite Hc.
Qed.

Lemma ends_ink_rstrip (s : string) :
  truthy (rstrip s) = true -> ends_ink (rstrip s) = true.
Proof.
  induction s as [|c r IH]; [done|]. cbn [rstrip].
  destruct (rstrip r) as [|c' r']; [|done].
  destruct (isspace c) eqn:Hc; [done|]. intros _. cbn. by rewrite Hc.
Qed.

Lemma ends_ink_lstrip (s : string) :
  ends_ink s = true -> ends_ink (lstrip s) = true.
Proof.
  induction s as [|c r IH]; [done|]. cbn [lstrip].
  destruct (isspace c) eqn:Hc; [|done].
  destruct r as [|c' r']; cbn [ends_ink]; [by rewrite Hc|done].
Qed.

Lemma ends_ink_has_ink (s : string) : ends_ink s = true -> has_ink s = true.
Proof.
  induction s as [|c [|c' r] IH]; [done|..]; cbn [ends_ink has_ink] in *.
  - intros ->. done.
  - intros Hr. by rewrite (IH Hr), orb_true_r.
Qed.

(** A stripped string that is not empty starts and ends with characters
    that are not whitespace. *)
Lemma strip_trimmed (s : string) :
  has_ink s = true -> starts_ink (strip s) = true /\ ends_ink (strip s) = true.
Proof.
  intros Hink. unfold strip.
  assert (truthy (rstrip s) = true) as Hr by (by rewrite (proj1 (rstrip_ink s))).
  split.
  - apply starts_ink_lstrip. rewrite truthy_lstrip.
    by rewrite (proj2 (rstrip_ink s)).
  - by apply ends_ink_lstrip, ends_ink_rstrip.
Qed.

Lemma len_lstrip_le (s : string) : len (lstrip s) <= len s.
Proof.
  unfold len. induction s as [|c r IH]; [done|]. cbn [lstrip].
  destruct (isspace c); cbn [String.length]; lia.
Qed.

Lemma len_rstrip_le (s : string) : len (rstrip s) <= len s.
Proof.
  unfold len. induction s as [|c r IH]; [done|]. cbn [rstrip].
  destruct (rstrip r); [destruct (isspace c)|]; cbn [String.length] in *; lia.
Qed.

Lemma len_strip_le (s : string) : len (strip s) <= len s.
Proof.
  unfold strip. pose proof (len_lstrip_le (rstrip s)). pose proof (len_rstrip_le s). lia.
Qed.

(** Stripping on the left removes nothing of a part that starts with a
    character that is not whitespace, ... *)
Lemma lstrip_keeps (a t : string) :
  starts_ink t = true -> exists a', lstrip (a +:+ t) = a' +:+ t.
Proof.
  intros Ht. induction a as [|c a IH].
  - exists EmptyString. change (EmptyString +:+ t) with t.
    destruct t as [|c r]; [done|]. cbn [starts_ink lstrip] in *.
    by destruct (isspace c).
  - rewrite append_cons. cbn [lstrip].
    destruct (isspace c); [done|]. by exists (String c a).
Qed.

(** ... and on the right nothing of a part that ends with one. *)
Lemma rstrip_keeps (t b : string) :
  ends_ink t = true -> exists b', rstrip (t +:+ b) = t +:+ b'.
Proof.
  induction t as [|c [|c' r] IH]; [done|..].
  - cbn [ends_ink]. intros Hc. rewrite append_cons.
    change (EmptyString +:+ b) with b. cbn [rstrip].
    destruct (rstrip b) as [|x b'].
    + exists EmptyString. apply negb_true_iff in Hc. by rewrite Hc.
    + by exists (String x b').
  - intros Hr. destruct (IH Hr) as [b' Hb']. exists b'.
    rewrite append_cons. cbn [rstrip]. rewrite Hb'.
    by rewrite !append_cons.
Qed.

(** A part that starts and ends with characters that are not whitespace
    survives stripping whole. *)
Lemma occurs_in_strip (t s : string) :
  starts_ink t = true -> ends_ink t = true ->
  occurs_in t s -> occurs_in t (strip s).
Proof.
  intros Hs He (a & b & ->). unfold strip.
  assert (ends_ink (a +:+ t) = true) as Hat.
  { clear Hs. induction a as [|c a IH]; [done|]. rewrite append_cons.
    destruct (a +:+ t) eqn:Heq; [done|]. done. }
  rewrite <- append_assoc.
  destruct (rstrip_keeps (a +:+ t) b Hat) as [b' ->].
  rewrite append_assoc.
  assert (starts_ink (t +:+ b') = true) as Htb by (by destruct t).
  destruct (lstrip_keeps a (t +:+ b') Htb) as [a' ->].
  by exists a', b'.
Qed.

Lemma has_ink_lstrip (s : string) : has_ink (lstrip s) = has_ink s.
Proof.
  induction s as [|c r IH]; [done|]. cbn [lstrip has_ink].
  destruct (isspace c) eqn:Hc; [done|]. cbn [has_ink]. by rewrite Hc.
Qed.

Lemma has_ink_strip (s : string) : has_ink (strip s) = has_ink s.
Proof. unfold strip. rewrite has_ink_lstrip. apply rstrip_ink. Qed.

Lemma has_ink_substring (s : string) (n m : nat) :
  has_ink (String.substring n m s) = true -> has_ink s = true.
Proof.
  revert n m. induction s as [|c r IH]; intros [|n] [|m];
    cbn [String.substring has_ink]; try done.
  - destruct (isspace c); [|done]. cbn. apply IH.
  - intros H. by rewrite (IH _ _ H), orb_true_r.
  - intros H. by rewrite (IH _ _ H), orb_true_r.
Qed.
End Stripped.

(** ** What the sentence chunker returns *)

Section SentenceChunks.
Import Py Chunking.

(** The list [sentences] of [chunk_by_sentences] after its filter. *)
Definition sentences_of (text : string) : list string :=
  map strip (List.filter (fun s => truthy (strip s)) (re_split_sentences text)).

(** The split drops whitespace only: a character that is not whitespace
    ends up in one of the pieces. *)
Lemma re_split_loop_ink (skipping after_punct : bool) (cur s : string) :
  (if skipping then has_ink s else has_ink cur || has_ink s) = true ->
  Exists (fun piece => has_ink piece = true) (re_split_loop skipping after_punct cur s).
Proof.
  revert skipping after_punct cur.
  induction s as [|c r IH]; intros skipping after_punct cur; cbn [re_split_loop has_ink].
  - destruct skipping; [done|]. rewrite orb_false_r. intros H. by constructor.
  - destruct skipping.
    + destruct (isspace c) eqn:Hc; cbn [negb orb]; intros H; apply IH; [done|].
      cbn [has_ink]. by rewrite Hc.
    + destruct (after_punct && isspace c) eqn:Hm.
      * apply andb_true_iff in Hm as [_ Hc]. rewrite Hc. cbn [negb orb].
        destruct (has_ink cur) eqn:Hcur; cbn [orb]; intros H.
        -- by apply Exists_cons_hd.
        -- apply Exists_cons_tl. by apply IH.
      * intros H. apply IH. rewrite has_ink_app. cbn [has_ink].
        by rewrite orb_false_r, <- orb_assoc.
Qed.

Lemma re_split_loop_blank (skipping after_punct : bool) (cur s : string) :
  has_ink cur = false -> has_ink s = false ->
  Forall (fun piece => has_ink piece = false) (re_split_loop skipping after_punct cur s).
Proof.
  revert skipping after_punct cur.
  induction s as [|c r IH]; intros skipping after_punct cur Hcur; cbn [re_split_loop has_ink].
  - intros _. by repeat constructor.
  - intros Hs. apply orb_false_iff in Hs as [Hc Hr].
    apply negb_false_iff in Hc. rewrite Hc, andb_true_r.
    destruct skipping; [by apply IH|].
    destruct after_punct; [constructor; [done|by apply IH]|].
    apply IH; [|done]. rewrite has_ink_app. cbn [has_ink]. by rewrite Hcur, Hc.
Qed.

Lemma sentences_of_ink (text : string) (s : string) :
  s ∈ sentences_of text ->
  has_ink s = true /\ starts_ink s = true /\ ends_ink s = true.
Proof.
  unfold sentences_of. rewrite list_elem_of_In, in_map_iff.
  intros (piece & <- & Hin). apply filter_In in Hin as [_ Hink].
  rewrite truthy_strip in Hink. rewrite has_ink_strip.
  split; [done|]. by apply strip_trimmed.
Qed.

Lemma sentences_of_nil (text : string) :
  sentences_of text = [] <-> has_ink text = false.
Proof.
  unfold sentences_of, re_split_sentences. split.
  - intros Hnil. destruct (has_ink text) eqn:Hink; [|done].
    pose proof (re_split_loop_ink false false EmptyString text Hink) as Hex.
    apply Exists_exists in Hex as (piece & Hin & Hpiece).
    assert (strip piece ∈ map strip
              (List.filter (fun s => truthy (strip s))
                 (re_split_loop false false EmptyString text))) as Hs.
    { apply list_elem_of_In, in_map, filter_In. rewrite truthy_strip.
      split; [by apply list_elem_of_In|done]. }
    rewrite Hnil in Hs. by apply elem_of_nil in Hs.
  - intros Hink.
    pose proof (re_split_loop_blank false false EmptyString text eq_refl Hink) as Hall.
    induction Hall as [|piece pieces Hpiece _ IH]; [done|].
    cbn [List.filter]. by rewrite truthy_strip, Hpiece.
Qed.

(** A text of whitespace gives the character chunker nothing to return. *)
Lemma chunk_by_characters_blank (fuel : nat) (text : string)
    (chunk_size chunk_overlap : Z) (r : list Chunk) :
  has_ink text = false ->
  chunk_by_characters fuel text chunk_size chunk_overlap = Some r -> r = [].
Proof.
  intros Hblank Hrun.
  pose proof (chunk_by_characters_inked _ _ _ _ _ Hrun) as Hink.
  pose proof (chunk_by_characters_window_records _ _ _ _ _ Hrun) as Hrec.
  destruct r as [|c r]; [done|]. exfalso.
  apply Forall_cons in Hink as [Hink _]. apply Forall_cons in Hrec as [Hrec _].
  destruct Hrec as (_ & _ & Htext & _). rewrite Htext in Hink.
  unfold slice in Hink. apply has_ink_substring in Hink. congruence.
Qed.

(** What the sentence chunker records for each chunk: the stripped buffer,
    which starts and ends with characters that are not whitespace, its
    length, and a span as long as the buffer before stripping. *)
Definition sentence_record (c : Chunk) : Prop :=
  starts_ink (Chunking.text c) = true /\ ends_ink (Chunking.text c) = true
  /\ char_count c = len (Chunking.text c)
  /\ 1 <= char_count c <= end_char c - start_char c.

Lemma closed_chunk_record (cur : string) (ci pos : Z) :
  has_ink cur = true -> sentence_record (closed_chunk cur ci pos).
Proof.
  intros Hink. destruct (strip_trimmed cur Hink) as [Hs He].
  unfold sentence_record, closed_chunk. cbn.
  split_and!; [done..| |].
  - apply has_ink_len. by rewrite has_ink_strip.
  - pose proof (len_strip_le cur). lia.
Qed.

Lemma occurs_in_refl (t : string) : occurs_in t t.
Proof. exists EmptyString, EmptyString. by rewrite append_nil_r. Qed.

Lemma occurs_in_app_l (t a b : string) : occurs_in t a -> occurs_in t (a +:+ b).
Proof.
  intros (x & y & ->). exists x, (y +:+ b). by rewrite !append_assoc.
Qed.

Lemma occurs_in_app_r (t a b : string) : occurs_in t b -> occurs_in t (a +:+ b).
Proof.
  intros (x & y & ->). exists (a +:+ x), y. by rewrite !append_assoc.
Qed.

(** The invariant of the sentence loop, [pre] being the sentences read so
    far: the buffer is empty only before the first sentence, the chunks
    closed are well recorded, and every sentence read is whole in a closed
    chunk or in the buffer. *)
Definition sentences_held (pre : list string) (st : SentenceState) : Prop :=
  (pre = [] /\ st_current_chunk st = EmptyString \/ has_ink (st_current_chunk st) = true)
  /\ Forall sentence_record (st_chunks st)
  /\ Forall (fun s => starts_ink s = true /\ ends_ink s = true) pre
  /\ forall s, s ∈ pre ->
       (exists c, c ∈ st_chunks st /\ occurs_in s (Chunking.text c))
       \/ occurs_in s (st_current_chunk st).

Lemma sentence_step_held (chunk_size chunk_overlap : Z) (pre : list string)
    (st : SentenceState) (sentence : string) :
  has_ink sentence = true -> starts_ink sentence = true -> ends_ink sentence = true ->
  sentences_held pre st ->
  sentences_held (pre ++ [sentence]) (sentence_step chunk_size chunk_overlap st sentence).
Proof.
  intros Hink Hs He. destruct st as [chunks cur ci pos].
  unfold sentences_held. cbn [st_chunks st_current_chunk].
  intros (Hcur & Hrec & Htrim & Hheld). unfold sentence_step.
  assert (Forall (fun s => starts_ink s = true /\ ends_ink s = true) (pre ++ [sentence]))
    as Htrim' by (apply Forall_app; split; [done|by apply Forall_singleton]).
  destruct (truthy cur && (len cur + len sentence + 1 >? chunk_size)) eqn:Hclose.
  - apply andb_true_iff in Hclose as [Hne _].
    assert (has_ink cur = true) as Hcink.
    { destruct Hcur as [[_ ->]|]; done. }
    assert (forall cur', occurs_in sentence cur' -> has_ink cur' = true ->
              (pre ++ [sentence] = [] /\ cur' = EmptyString \/ has_ink cur' = true)
              /\ Forall sentence_record (chunks ++ [closed_chunk cur ci pos])
              /\ Forall (fun s => starts_ink s = true /\ ends_ink s = true)
                   (pre ++ [sentence])
              /\ forall s, s ∈ pre ++ [sentence] ->
                   (exists c, c ∈ chunks ++ [closed_chunk cur ci pos]
                              /\ occurs_in s (Chunking.text c))
                   \/ occurs_in s cur') as Hgoal.
    { intros cur' Hocc Hink'. split_and!; [by right| |done|].
      - apply Forall_app. split; [done|]. apply Forall_singleton.
        by apply closed_chunk_record.
      - intros s Hin. apply elem_of_app in Hin as [Hin|Hin].
        + left. destruct (Hheld s Hin) as [(c & Hc & Hocc')|Hocc'].
          * exists c. split; [|done]. apply elem_of_app. by left.
          * exists (closed_chunk cur ci pos). split.
            { apply elem_of_app. right. by apply list_elem_of_singleton. }
            rewrite Forall_forall in Htrim. destruct (Htrim s Hin).
            by apply occurs_in_strip.
        + apply list_elem_of_singleton in Hin as ->. by right. }
    destruct ((chunk_overlap >? 0) && (len cur >? chunk_overlap));
      cbn [st_chunks st_current_chunk]; apply Hgoal.
    + by apply occurs_in_app_r, occurs_in_app_r, occurs_in_refl.
    + by rewrite !has_ink_app, Hink, !orb_true_r.
    + apply occurs_in_refl.
    + done.
  - destruct (truthy cur) eqn:Hne; cbn [st_chunks st_current_chunk].
    + split_and!; [right|done|done|].
      * by rewrite !has_ink_app, Hink, !orb_true_r.
      * intros s Hin. apply elem_of_app in Hin as [Hin|Hin].
        -- destruct (Hheld s Hin) as [?|Hocc]; [by left|right].
           by apply occurs_in_app_l.
        -- apply list_elem_of_singleton in Hin as ->. right.
           by apply occurs_in_app_r, occurs_in_app_r, occurs_in_refl.
    + split_and!; [by right|done|done|].
      intros s Hin. apply elem_of_app in Hin as [Hin|Hin].
      * destruct Hcur as [[-> _]|Hcink]; [by apply elem_of_nil in Hin|].
        by destruct cur.
      * apply list_elem_of_singleton in Hin as ->. right. apply occurs_in_refl.
Qed.

Lemma sentence_loop_held (chunk_size chunk_overlap : Z) (sentences pre : list string)
    (st : SentenceState) :
  Forall (fun s => has_ink s = true /\ starts_ink s = true /\ ends_ink s = true)
         sentences ->
  sentences_held pre st ->
  sentences_held (pre ++ sentences)
    (fold_left (sentence_step chunk_size chunk_overlap) sentences st).
Proof.
  revert pre st. induction sentences as [|s sentences IH]; intros pre st Hall Hst.
  - by rewrite app_nil_r.
  - apply Forall_cons in Hall as [(Hink & Hs & He) Hall]. cbn [fold_left].
    replace (pre ++ s :: sentences) with ((pre ++ [s]) ++ sentences)
      by (by rewrite <- app_assoc).
    apply IH; [done|]. by apply sentence_step_held.
Qed.

(** The answer of the sentence chunker on a text that is not all
    whitespace: it needs no fuel, and it is the list of closed chunks
    followed by the chunk of a buffer that holds every sentence not yet in
    a closed chunk. *)
Lemma chunk_by_sentences_inked (fuel : nat) (text : string)
    (chunk_size chunk_overlap : Z) :
  has_ink text = true ->
  exists chunks cur ci pos,
    chunk_by_sentences fuel text chunk_size chunk_overlap
    = Some (chunks ++ [closed_chunk cur ci pos])
    /\ chunk_by_sentences 0 text chunk_size chunk_overlap
       = Some (chunks ++ [closed_chunk cur ci pos])
    /\ sentences_held (sentences_of text) (mkSentenceState chunks cur ci pos)
    /\ has_ink cur = true.
Proof.
  intros Hink. unfold chunk_by_sentences.
  destruct text as [|c0 text0] eqn:Htext; [done|]. rewrite <- Htext in *.
  assert (truthy text = true) as -> by (by rewrite Htext).
  cbn [negb]. fold (sentences_of text).
  destruct (sentences_of text) as [|s sentences] eqn:Hs.
  { apply sentences_of_nil in Hs. congruence. }
  pose proof (sentence_loop_held chunk_size chunk_overlap (s :: sentences) []
                (mkSentenceState [] EmptyString 0 0)) as Hheld.
  destruct (fold_left _ _ _) as [chunks cur ci pos].
  cbn [app] in Hheld. destruct Hheld as (Hcur & Hrest).
  - apply Forall_forall. intros x Hx. apply sentences_of_ink with (text := text).
    by rewrite Hs.
  - unfold sentences_held. cbn. split_and!; [by left|done|done|].
    intros x Hx. by apply elem_of_nil in Hx.
  - cbn [st_current_chunk] in Hcur. destruct Hcur as [[? _]|Hcink]; [done|].
    exists chunks, cur, ci, pos. rewrite truthy_strip, Hcink.
    split_and!; [done|done| |done]. split; [by right|done].
Qed.
End SentenceChunks.

Section SentenceChunkProperties.
Import Py Chunking.

(** On a text of whitespace the sentence chunker is the character
    chunker. *)
Lemma chunk_by_sentences_blank (fuel : nat) (text : string)
    (chunk_size chunk_overlap : Z) :
  has_ink text = false ->
  chunk_by_sentences fuel text chunk_size chunk_overlap
  = chunk_by_characters fuel text chunk_size chunk_overlap.
Proof.
  intros Hblank. unfold chunk_by_sentences.
  destruct (negb (truthy text)) eqn:Ht.
  - unfold chunk_by_characters. by rewrite Ht.
  - fold (sentences_of text). by rewrite (proj2 (sentences_of_nil text) Hblank).
Qed.

(** X4: the sentence strategy always answers on a text that holds a character
    other than whitespace, whatever [chunk_size] and [chunk_overlap] are
    (also when the character strategy would run for ever), and its answer
    has at least one chunk. *)
Theorem chunk_by_sentences_returns (text : string) (chunk_size chunk_overlap : Z) :
  has_ink text = true ->
  exists r, r <> []
    /\ forall fuel, chunk_by_sentences fuel text chunk_size chunk_overlap = Some r.
Proof.
  intros Hink.
  destruct (chunk_by_sentences_inked 0 text chunk_size chunk_overlap Hink)
    as (chunks & cur & ci & pos & H0 & _).
  exists (chunks ++ [closed_chunk cur ci pos]). split.
  - intros Hnil. by apply app_eq_nil in Hnil as [_ ?].
  - intros fuel.
    destruct (chunk_by_sentences_inked fuel text chunk_size chunk_overlap Hink)
      as (chunks' & cur' & ci' & pos' & Hf & H0' & _).
    congruence.
Qed.

Lemma chunk_by_sentences_returns_witness :
  exists r, r <> []
    /\ forall fuel, chunk_by_sentences fuel "One two. Three four! Five?" 4 9 = Some r.
Proof.
  apply (chunk_by_sentences_returns "One two. Three four! Five?" 4 9).
  reflexivity.
Defined.

(** X5: every chunk of the sentence strategy has a text that starts and ends
    with a character other than whitespace, a [char_count] equal to the
    length of that text, at least 1, and a span [end_char - start_char] at
    least as long. *)
Theorem sentence_chunk_records (fuel : nat) (text : string)
    (chunk_size chunk_overlap : Z) (r : list Chunk) (c : Chunk) :
  chunk_by_sentences fuel text chunk_size chunk_overlap = Some r ->
  c ∈ r ->
  starts_ink (Chunking.text c) = true /\ ends_ink (Chunking.text c) = true
  /\ char_count c = len (Chunking.text c)
  /\ 1 <= char_count c <= end_char c - start_char c.
Proof.
  intros Hrun Hc. destruct (has_ink text) eqn:Hink.
  - destruct (chunk_by_sentences_inked fuel text chunk_size chunk_overlap Hink)
      as (chunks & cur & ci & pos & Hf & _ & (_ & Hrec & _) & Hcur).
    rewrite Hf in Hrun. injection Hrun as <-.
    cbn [st_chunks] in Hrec. rewrite Forall_forall in Hrec.
    apply elem_of_app in Hc as [Hc|Hc]; [by apply Hrec|].
    apply list_elem_of_singleton in Hc as ->. by apply closed_chunk_record.
  - rewrite chunk_by_sentences_blank in Hrun by done.
    apply chunk_by_characters_blank in Hrun as ->; [|done].
    by apply elem_of_nil in Hc.
Qed.

Lemma sentence_chunk_records_witness :
  starts_ink "two. Three four!" = true /\ ends_ink "two. Three four!" = true
  /\ 16 = len "two. Three four!" /\ 1 <= 16 <= 21 - 5.
Proof.
  apply (sentence_chunk_records 0 "One two. Three four! Five?" 12 4
           three_sentences (mkChunk "two. Three four!" 1 5 21 16)).
  - vm_compute. reflexivity.
  - right. left.
Defined.

(** X6: sentences are never split: every sentence the strategy reads (a
    stripped, non-empty piece of the split at [.], [!] or [?] followed by
    whitespace) occurs whole in the text of a returned chunk. *)
Theorem sentences_never_split (fuel : nat) (text : string)
    (chunk_size chunk_overlap : Z) (r : list Chunk) (sentence : string) :
  chunk_by_sentences fuel text chunk_size chunk_overlap = Some r ->
  sentence ∈ map strip (List.filter (fun s => truthy (strip s))
                          (re_split_sentences text)) ->
  exists c, c ∈ r /\ occurs_in sentence (Chunking.text c).
Proof.
  fold (sentences_of text). intros Hrun Hs.
  destruct (has_ink text) eqn:Hink.
  - destruct (chunk_by_sentences_inked fuel text chunk_size chunk_overlap Hink)
      as (chunks & cur & ci & pos & Hf & _ & (_ & _ & _ & Hheld) & Hcur).
    rewrite Hf in Hrun. injection Hrun as <-.
    cbn [st_chunks st_current_chunk] in Hheld.
    destruct (Hheld sentence Hs) as [(c & Hc & Hocc)|Hocc].
    + exists c. split; [|done]. apply elem_of_app. by left.
    + exists (closed_chunk cur ci pos). split.
      * apply elem_of_app. right. by apply list_elem_of_singleton.
      * destruct (sentences_of_ink _ _ Hs) as (_ & ? & ?).
        by apply occurs_in_strip.
  - apply sentences_of_nil in Hink. rewrite Hink in Hs.
    by apply elem_of_nil in Hs.
Qed.

Lemma sentences_never_split_witness :
  exists c, c ∈ three_sentences /\ occurs_in "Three four!" (Chunking.text c).
Proof.
  apply (sentences_never_split 0 "One two. Three four! Five?" 12 4).
  - vm_compute. reflexivity.
  - vm_compute. right. left.
Defined.

(** X7: a text of nothing but whitespace gives no chunk under any strategy;
    the call answers (with the empty list) when the text is empty or
    [chunk_overlap < chunk_size], and otherwise runs for ever, under the
    sentence strategy too. *)
Theorem chunk_text_blank (text : string) (chunk_size chunk_overlap : Z)
    (strategy : Strategy) :
  has_ink text = false ->
  (forall fuel r,
     chunk_text fuel text chunk_size chunk_overlap strategy = Some r -> r = [])
  /\ (text = EmptyString \/ chunk_overlap < chunk_size ->
      chunk_text (S (String.length text)) text chunk_size chunk_overlap strategy
      = Some [])
  /\ (text <> EmptyString -> chunk_size <= chunk_overlap ->
      forall fuel, chunk_text fuel text chunk_size chunk_overlap strategy = None).
Proof.
  intros Hblank.
  assert (forall fuel, chunk_text fuel text chunk_size chunk_overlap strategy
                       = chunk_by_characters fuel text chunk_size chunk_overlap) as Heq.
  { intros fuel. destruct strategy; cbn [chunk_text];
      [done|by apply chunk_by_sentences_blank..]. }
  split_and!.
  - intros fuel r. rewrite Heq. by apply chunk_by_characters_blank.
  - intros Hok. rewrite Heq.
    destruct (chunk_by_characters_terminates text chunk_size chunk_overlap Hok)
      as [r Hr].
    rewrite Hr. f_equal. by apply chunk_by_characters_blank in Hr.
  - intros Hne Hstep fuel. rewrite Heq. by apply chunk_by_characters_diverges.
Qed.

Lemma chunk_text_blank_witness :
  chunk_text 4 "   " 5 2 Sentences = Some []
  /\ forall fuel, chunk_text fuel "   " 5 5 (Unknown "paragraphs") = None.
Proof.
  split.
  - apply (proj1 (proj2 (chunk_text_blank "   " 5 2 Sentences eq_refl))).
    right. reflexivity.
  - apply (proj2 (proj2 (chunk_text_blank "   " 5 5 (Unknown "paragraphs") eq_refl))).
    + discriminate.
    + discriminate.
Defined.
End SentenceChunkProperties.


(** * Further properties of the retrieval filter *)

Section SearchOrder.
Import Py VectorStore.





(** An index that returns three entries, at distances 0, 1 and 1/2. *)
Definition three_hit_store : VectorStore :=
  mkVectorStore "rag_learning_prototype"
    (fun _ => Some (mkQueryResult [["f_0"; "f_1"; "f_2"]]
                                  [[0%Q; 1%Q; (1 # 2)%Q]]
                                  [["The Fox"; "The Crow"; "The Hare"]]
                                  [[∅; ∅; ∅]])).

End SearchOrder.


(** * Cost and evaluation metrics *)

Section Cost.
Import LLMClient.




End Cost.

Section Metrics.
Import Py EvaluationMetrics.

Lemma fold_min_spec (xs : list Q) (x : Q) :
  let m := fold_left (fun m y => if float_lt y m then y else m) xs x in
  m ∈ x :: xs /\ forall y, y ∈ x :: xs -> (m <= y)%Q.
Proof.
  revert x. induction xs as [|z xs IH]; intros x; cbn [fold_left].
  - split; [by left|]. intros y Hy. apply list_elem_of_singleton in Hy as ->. lra.
  - destruct (float_lt z x) eqn:Hlt.
    + apply float_lt_spec in Hlt. destruct (IH z) as [Hin Hle]. split.
      * by right.
      * intros y Hy. apply elem_of_cons in Hy as [->|Hy]; [|by apply Hle].
        assert (fold_left (fun m y => if float_lt y m then y else m) xs z <= z)%Q
          by (apply Hle; by left). lra.
    + apply float_lt_false in Hlt. destruct (IH x) as [Hin Hle]. split.
      * apply elem_of_cons in Hin as [->|Hin]; [by left|by right; right].
      * intros y Hy. apply elem_of_cons in Hy as [->|Hy]; [apply Hle; by left|].
        apply elem_of_cons in Hy as [->|Hy]; [|apply Hle; by right].
        assert (fold_left (fun m y => if float_lt y m then y else m) xs x <= x)%Q
          by (apply Hle; by left). lra.
Qed.

Lemma fold_max_spec (xs : list Q) (x : Q) :
  let m := fold_left (fun m y => if float_lt m y then y else m) xs x in
  m ∈ x :: xs /\ forall y, y ∈ x :: xs -> (y <= m)%Q.
Proof.
  revert x. induction xs as [|z xs IH]; intros x; cbn [fold_left].
  - split; [by left|]. intros y Hy. apply list_elem_of_singleton in Hy as ->. lra.
  - destruct (float_lt x z) eqn:Hlt.
    + apply float_lt_spec in Hlt. destruct (IH z) as [Hin Hle]. split.
      * by right.
      * intros y Hy. apply elem_of_cons in Hy as [->|Hy]; [|by apply Hle].
        assert (z <= fold_left (fun m y => if float_lt m y then y else m) xs z)%Q
          by (apply Hle; by left). lra.
    + apply float_lt_false in Hlt. destruct (IH x) as [Hin Hle]. split.
      * apply elem_of_cons in Hin as [->|Hin]; [by left|by right; right].
      * intros y Hy. apply elem_of_cons in Hy as [->|Hy]; [apply Hle; by left|].
        apply elem_of_cons in Hy as [->|Hy]; [|apply Hle; by right].
        assert (x <= fold_left (fun m y => if float_lt m y then y else m) xs x)%Q
          by (apply Hle; by left). lra.
Qed.

(** X11: the score metrics of a response: never an error; all zero when no
    chunk was retrieved; otherwise [min_chunk_score] and [max_chunk_score]
    are the scores of two of the chunks (a chunk without a score counting as
    0.0) and every chunk's score lies between them. *)
Theorem basic_metrics_bounds (response : string) (retrieved_chunks : list RatedChunk) :
  exists metrics,
    _calculate_basic_metrics response retrieved_chunks = Some metrics
    /\ response_length metrics = len response
    /\ (retrieved_chunks = [] ->
        avg_chunk_score metrics = 0%Q /\ min_chunk_score metrics = 0%Q
        /\ max_chunk_score metrics = 0%Q)
    /\ (retrieved_chunks <> [] ->
        (exists chunk, chunk ∈ retrieved_chunks
           /\ min_chunk_score metrics = default 0%Q (chunk_score chunk))
        /\ (exists chunk, chunk ∈ retrieved_chunks
              /\ max_chunk_score metrics = default 0%Q (chunk_score chunk))
        /\ forall chunk, chunk ∈ retrieved_chunks ->
             (min_chunk_score metrics <= default 0 (chunk_score chunk)
              <= max_chunk_score metrics)%Q).
Proof.
  destruct retrieved_chunks as [|chunk chunks]; cbn [_calculate_basic_metrics].
  { eexists. split_and!; done. }
  set (score := fun c : RatedChunk => default 0%Q (chunk_score c)).
  cbn [map py_min py_max mbind option_bind]. fold score.
  destruct (fold_min_spec (map score chunks) (score chunk)) as [Hmin_in Hmin].
  destruct (fold_max_spec (map score chunks) (score chunk)) as [Hmax_in Hmax].
  change (score chunk :: map score chunks) with (map score (chunk :: chunks)) in *.
  eexists. split_and!; [done|done|done|]. intros _.
  cbn [min_chunk_score max_chunk_score]. split_and!.
  - apply list_elem_of_fmap in Hmin_in as (c & -> & Hc). by exists c.
  - apply list_elem_of_fmap in Hmax_in as (c & -> & Hc). by exists c.
  - intros c Hc.
    assert (score c ∈ map score (chunk :: chunks)) as Hs
      by (by apply list_elem_of_fmap_2).
    split; [by apply Hmin|by apply Hmax].
Qed.
End Metrics.

Section BatchAggregates.
Import Py EvaluationService.

Lemma fold_sum_unit (xs : list Q) (acc : Q) :
  Forall (fun x => (0 <= x <= 1)%Q) xs ->
  (acc <= fold_left Qplus xs acc
   /\ fold_left Qplus xs acc <= acc + inject_Z (Z.of_nat (length xs)))%Q.
Proof.
  intros Hall. revert acc. induction Hall as [|x xs [Hx0 Hx1] _ IH]; intros acc.
  - cbn [fold_left length]. change (inject_Z (Z.of_nat 0)) with 0%Q. split; lra.
  - cbn [fold_left length]. destruct (IH (acc + x)%Q) as [Hlo Hhi].
    rewrite Nat2Z.inj_succ. unfold Z.succ. rewrite inject_Z_plus.
    change (inject_Z 1) with 1%Q. split; lra.
Qed.

Lemma mean_unit (xs : list Q) :
  Forall (fun x => (0 <= x <= 1)%Q) xs -> (0 <= mean xs <= 1)%Q.
Proof.
  intros Hall. destruct xs as [|x xs]; [cbn [mean]; split; lra|].
  unfold mean, list_len. destruct (fold_sum_unit (x :: xs) 0 Hall) as [Hlo Hhi].
  assert (0 < inject_Z (Z.of_nat (length (x :: xs))))%Q as Hpos.
  { change 0%Q with (inject_Z 0). rewrite <- Zlt_Qlt. cbn [length]. lia. }
  split.
  - apply Qle_shift_div_l; [done|]. lra.
  - apply Qle_shift_div_r; [done|]. lra.
Qed.

Lemma evaluate_question_unit (test_q : TestQuestion) (response : Response) :
  (0 <= r_keyword_coverage (evaluate_question test_q response) <= 1)%Q.
Proof.
  cbn [evaluate_question r_keyword_coverage].
  destruct (expected_keywords test_q) as [|kw kws] eqn:Hkw; [split; lra|].
  set (found := List.filter _ _).
  assert (length found <= length (kw :: kws))%nat as Hlen
    by apply sublist_length, filter_sublist.
  unfold list_len.
  assert (0 < inject_Z (Z.of_nat (length (kw :: kws))))%Q as Hpos.
  { change 0%Q with (inject_Z 0). rewrite <- Zlt_Qlt. cbn [length]. lia. }
  assert (inject_Z 0 <= inject_Z (Z.of_nat (length found)))%Q as H0
    by (rewrite <- Zle_Qle; lia).
  assert (inject_Z (Z.of_nat (length found))
          <= inject_Z (Z.of_nat (length (kw :: kws))))%Q as H1
    by (rewrite <- Zle_Qle; lia).
  change (inject_Z 0) with 0%Q in H0.
  split.
  - apply Qle_shift_div_l; [done|]. lra.
  - apply Qle_shift_div_r; [done|]. lra.
Qed.

Context {Pipeline Config : Type}.
Variable query : Pipeline -> string -> Config -> option (Response * Pipeline).

(** The state of the pipeline after the questions were put to it. *)
Fixpoint pipeline_after (rag_pipeline : Pipeline) (config : Config)
    (test_questions : list TestQuestion) : option Pipeline :=
  match test_questions with
  | [] => Some rag_pipeline
  | test_q :: test_questions =>
      '(_, rag_pipeline) ← query rag_pipeline (question test_q) config;
      pipeline_after rag_pipeline config test_questions
  end.

Lemma pipeline_responses_none (rag_pipeline : Pipeline) (config : Config)
    (test_questions : list TestQuestion) :
  pipeline_responses query rag_pipeline config test_questions = None
  <-> exists before test_q after rag_pipeline',
        test_questions = before ++ test_q :: after
        /\ pipeline_after rag_pipeline config before = Some rag_pipeline'
        /\ query rag_pipeline' (question test_q) config = None.
Proof.
  revert rag_pipeline.
  induction test_questions as [|q0 rest IH]; intros p; cbn [pipeline_responses].
  - split; [done|]. intros (before & q & after & p' & Heq & _).
    by destruct before.
  - destruct (query p (question q0) config) as [[response p1]|] eqn:Hq;
      cbn [mbind option_bind].
    + destruct (pipeline_responses query p1 config rest) as [rs|] eqn:Hrs;
        cbn [mbind option_bind].
      * split; [done|]. intros (before & q & after & p' & Heq & Hafter & Hfail).
        destruct before as [|b before]; cbn in Heq, Hafter.
        -- injection Heq as <- _. injection Hafter as <-. congruence.
        -- injection Heq as <- ->. rewrite Hq in Hafter. cbn in Hafter.
           assert (pipeline_responses query p1 config (before ++ q :: after) = None)
             as Hnone by (apply IH; by eauto 10).
           congruence.
      * split; [intros _|done].
        destruct (proj1 (IH p1) Hrs) as (before & q & after & p' & -> & Hafter & Hfail).
        exists (q0 :: before), q, after, p'. split_and!; [done| |done].
        cbn [pipeline_after]. by rewrite Hq.
    + split; [intros _|done]. by exists [], q0, rest, p.
Qed.
End BatchAggregates.

Section BatchProperties.
Import Py EvaluationService.

(** X12: batch evaluation is all or nothing: it raises exactly when the
    pipeline raises on one of the questions, reached after the questions
    before it were answered; no partial result is returned. *)
Theorem evaluate_batch_aborts {Pipeline Config : Type}
    (query : Pipeline -> string -> Config -> option (Response * Pipeline))
    (test_questions : list TestQuestion) (rag_pipeline : Pipeline) (config : Config) :
  evaluate_batch query test_questions rag_pipeline config = None
  <-> exists before test_q after rag_pipeline',
        test_questions = before ++ test_q :: after
        /\ pipeline_after query rag_pipeline config before = Some rag_pipeline'
        /\ query rag_pipeline' (question test_q) config = None.
Proof.
  rewrite <- pipeline_responses_none. unfold evaluate_batch.
  rewrite batch_loop_spec.
  by destruct (pipeline_responses query rag_pipeline config test_questions).
Qed.

(** X13: the aggregates of a batch: [total_questions] counts the questions,
    there is one result per question, every [keyword_coverage] lies in
    [0, 1] and so does [avg_keyword_coverage]. *)
Theorem batch_coverage_unit {Pipeline Config : Type}
    (query : Pipeline -> string -> Config -> option (Response * Pipeline))
    (test_questions : list TestQuestion) (rag_pipeline : Pipeline) (config : Config)
    (batch : BatchResult) :
  evaluate_batch query test_questions rag_pipeline config = Some batch ->
  total_questions batch = Z.of_nat (length test_questions)
  /\ length (results batch) = length test_questions
  /\ (forall res, res ∈ results batch -> (0 <= r_keyword_coverage res <= 1)%Q)
  /\ (0 <= avg_keyword_coverage batch <= 1)%Q.
Proof.
  unfold evaluate_batch. rewrite batch_loop_spec.
  destruct (pipeline_responses query rag_pipeline config test_questions)
    as [responses|] eqn:Hrs; [|done].
  cbn [mbind option_bind app]. intros [= <-].
  cbn [total_questions results avg_keyword_coverage].
  pose proof (pipeline_responses_length _ _ _ _ _ Hrs) as Hlen.
  assert (Forall (fun res => (0 <= r_keyword_coverage res <= 1)%Q)
            (zip_with evaluate_question test_questions responses)) as Hall.
  { apply Forall_forall. intros res Hres.
    apply elem_of_lookup_zip_with in Hres as (i & q & r & -> & _ & _).
    apply evaluate_question_unit. }
  split; [done|]. split; [by rewrite length_zip_with; lia|].
  split; [by apply Forall_forall|].
  apply mean_unit. by apply Forall_fmap.
Qed.

Lemma batch_coverage_unit_witness :
  exists batch,
    evaluate_batch fox_pipeline fox_questions tt tt = Some batch
    /\ total_questions batch = 2
    /\ length (results batch) = 2%nat
    /\ (0 <= avg_keyword_coverage batch <= 1)%Q.
Proof.
  eexists. split; [reflexivity|].
  destruct (batch_coverage_unit fox_pipeline fox_questions tt tt _ eq_refl)
    as (Htotal & Hlen & _ & Havg).
  split; [exact Htotal|]. split; [exact Hlen|exact Havg].
Defined.
End BatchProperties.


(** * Ingestion *)

From Stdlib Require DecimalPos DecimalZ.

Section IngestionFacts.
Import Py Chunking VectorStore VectorStoreWrites IngestionService.

Lemma to_int_nonnil (n : Z) :
  Z.to_int n <> Decimal.Pos Decimal.Nil /\ Z.to_int n <> Decimal.Neg Decimal.Nil.
Proof.
  destruct n as [|p|p]; cbn; split; try discriminate;
    intros [= H]; by apply DecimalPos.Unsigned.to_uint_nonnil in H.
Qed.

(** [str] is injective on integers. *)
Lemma str_of_int_inj (n m : Z) : str_of_int n = str_of_int m -> n = m.
Proof.
  unfold str_of_int. intros Heq. apply DecimalZ.to_int_inj.
  destruct (to_int_nonnil n) as [Hn1 Hn2], (to_int_nonnil m) as [Hm1 Hm2].
  pose proof (NilZero.isi _ Hn1 Hn2) as Hn. pose proof (NilZero.isi _ Hm1 Hm2) as Hm.
  rewrite Heq in Hn. congruence.
Qed.

Lemma append_inj_l (a b c : string) : a +:+ b = a +:+ c -> b = c.
Proof.
  induction a as [|x a IH]; [done|]. rewrite !append_cons. intros [= H]. by apply IH.
Qed.

Lemma chunk_by_sentences_records (fuel : nat) (text : string)
    (chunk_size chunk_overlap : Z) (r : list Chunk) :
  chunk_by_sentences fuel text chunk_size chunk_overlap = Some r ->
  Forall sentence_record r.
Proof.
  intros Hrun. destruct (has_ink text) eqn:Hink.
  - destruct (chunk_by_sentences_inked fuel text chunk_size chunk_overlap Hink)
      as (chunks & cur & ci & pos & Hf & _ & (_ & Hrec & _) & Hcur).
    rewrite Hf in Hrun. injection Hrun as <-.
    apply Forall_app. split; [done|]. apply Forall_singleton.
    by apply closed_chunk_record.
  - rewrite chunk_by_sentences_blank in Hrun by done.
    by apply chunk_by_characters_blank in Hrun as ->.
Qed.

(** Whatever the strategy, the chunks are numbered from zero and count
    their own characters. *)
Lemma chunk_text_numbered (fuel : nat) (text : string) (chunk_size chunk_overlap : Z)
    (strategy : Strategy) (r : list Chunk) :
  chunk_text fuel text chunk_size chunk_overlap strategy = Some r ->
  indexed_from_zero r
  /\ Forall (fun c => char_count c = len (Chunking.text c)) r.
Proof.
  destruct strategy; cbn [chunk_text]; intros Hrun.
  - split; [by eapply chunk_by_characters_numbered|].
    eapply Forall_impl; [by eapply chunk_by_characters_window_records|].
    by intros c (_ & _ & _ & ?).
  - split; [by eapply chunk_by_sentences_numbered|].
    eapply Forall_impl; [by eapply chunk_by_sentences_records|].
    by intros c (_ & _ & ? & _).
  - split; [by eapply chunk_by_sentences_numbered|].
    eapply Forall_impl; [by eapply chunk_by_sentences_records|].
    by intros c (_ & _ & ? & _).
Qed.

Lemma indexed_lookup (r : list Chunk) (i : nat) (c : Chunk) :
  indexed_from_zero r -> r !! i = Some c -> chunk_index c = Z.of_nat i.
Proof.
  unfold indexed_from_zero. intros Hidx Hc.
  assert ((chunk_index <$> r) !! i = Some (chunk_index c)) as Hi
    by (by rewrite list_lookup_fmap, Hc).
  rewrite Hidx in Hi. apply lookup_seqZ in Hi as [-> _]. lia.
Qed.

Lemma generated_id_chunk (i : nat) (dataset_id dataset_name source_title created_at : string)
    (chunk : Chunk) :
  generated_id i (chunk_metadata dataset_id dataset_name source_title created_at chunk)
  = dataset_id +:+ "_" +:+ str_of_int (chunk_index chunk).
Proof. reflexivity. Qed.

(** X14: what a successful ingestion hands to the vector store: one [add] call
    whose documents are the chunk texts, embedded by the model, with one
    metadata record and one id per chunk; the id of chunk [i] is
    [<dataset_id>_<i>], so the ids are pairwise distinct, and its metadata
    carries the dataset id, the source title, the index [i] and the length
    of the document. *)
Theorem ingest_text_adds_numbered_chunks (fuel : nat) (uuid4 utcnow : string)
    (encode : list string -> option (list (list Q)))
    (text dataset_name source_title : string) (dataset_id : option string)
    (chunk_size chunk_overlap : Z) (chunking_strategy : Strategy)
    (ing : Ingestion) (d dn created : string) (n size : Z) :
  ingest_text fuel uuid4 utcnow encode text dataset_name source_title dataset_id
              chunk_size chunk_overlap chunking_strategy = Some ing ->
  report ing = Success d dn n size created ->
  exists docs embeddings metadatas ids,
    added ing = [mkAddCall docs embeddings metadatas ids]
    /\ d = default uuid4 dataset_id /\ size = len text /\ created = utcnow
    /\ encode docs = Some embeddings
    /\ 0 < n /\ Z.of_nat (length docs) = n
    /\ length metadatas = length docs /\ length ids = length docs
    /\ NoDup ids
    /\ forall i doc, docs !! i = Some doc ->
         ids !! i = Some (d +:+ "_" +:+ str_of_int (Z.of_nat i))
         /\ exists meta,
              metadatas !! i = Some meta
              /\ meta !! "dataset_id" = Some (MetaStr d)
              /\ meta !! "source_title" = Some (MetaStr source_title)
              /\ meta !! "chunk_index" = Some (MetaInt (Z.of_nat i))
              /\ meta !! "char_count" = Some (MetaInt (len doc)).
Proof.
  unfold ingest_text.
  destruct (chunk_text fuel text chunk_size chunk_overlap chunking_strategy)
    as [chunks|] eqn:Hchunks; [|done].
  cbn [mbind option_bind].
  destruct chunks as [|c0 chunks0] eqn:Hc; [by intros [= <-]|]. rewrite <- Hc in *.
  assert (embed_documents encode (map Chunking.text chunks)
          = encode (map Chunking.text chunks)) as ->
    by (by rewrite Hc).
  destruct (encode (map Chunking.text chunks)) as [embeddings|] eqn:Henc; [|done].
  cbn [mbind option_bind]. intros [= <-]. cbn [report added]. intros [= <- <- <- <- <-].
  destruct (chunk_text_numbered _ _ _ _ _ _ Hchunks) as [Hidx Hcount].
  set (did := default uuid4 dataset_id) in *.
  set (meta_of := chunk_metadata did dataset_name source_title utcnow).
  assert (add_documents (map Chunking.text chunks) embeddings (map meta_of chunks) None
          = [mkAddCall (map Chunking.text chunks) embeddings (map meta_of chunks)
                       (imap generated_id (map meta_of chunks))]) as ->
    by (by rewrite Hc).
  assert (imap generated_id (map meta_of chunks)
          = (fun k => did +:+ "_" +:+ str_of_int k) <$> (chunk_index <$> chunks)) as Hids.
  { rewrite imap_fmap. rewrite <- list_fmap_compose.
    rewrite <- (imap_const (_ ∘ _)). apply imap_ext. intros i c _. done. }
  exists (map Chunking.text chunks), embeddings, (map meta_of chunks),
         (imap generated_id (map meta_of chunks)).
  split_and!; try done.
  - rewrite Hc. cbn [length]. lia.
  - by rewrite length_map.
  - by rewrite !length_map.
  - by rewrite length_imap, !length_map.
  - rewrite Hids, Hidx. apply NoDup_fmap_2; [|apply NoDup_seqZ].
    intros k k' Hk. by apply append_inj_l, append_inj_l, str_of_int_inj in Hk.
  - intros i doc Hdoc.
    change (map Chunking.text chunks) with (Chunking.text <$> chunks) in Hdoc.
    rewrite list_lookup_fmap in Hdoc.
    destruct (chunks !! i) as [c|] eqn:Hci; [|done]. injection Hdoc as <-.
    pose proof (indexed_lookup _ _ _ Hidx Hci) as Hi.
    rewrite Forall_forall in Hcount.
    assert (char_count c = len (Chunking.text c)) as Hcc
      by (apply Hcount; by eapply list_elem_of_lookup_2).
    split.
    + rewrite list_lookup_imap.
      change (map meta_of chunks) with (meta_of <$> chunks).
      rewrite list_lookup_fmap, Hci. unfold meta_of.
      cbn [fmap option_fmap option_map]. by rewrite generated_id_chunk, Hi.
    + exists (meta_of c). change (map meta_of chunks) with (meta_of <$> chunks).
      rewrite list_lookup_fmap, Hci. rewrite <- Hi, <- Hcc. done.
Qed.

(** The embedding model of the examples: one component per document. *)
Definition unit_encode (texts : list string) : option (list (list Q)) :=
  Some (map (fun _ => [1%Q]) texts).

Lemma ingest_text_adds_numbered_chunks_witness :
  exists ing docs embeddings metadatas ids,
    ingest_text 0 "d-1" "2025-01-01T00:00:00" unit_encode "One two. Three four! Five?"
                "Fables" "Direct Text" None 12 4 Sentences = Some ing
    /\ added ing = [mkAddCall docs embeddings metadatas ids]
    /\ ids = ["d-1_0"; "d-1_1"; "d-1_2"]
    /\ NoDup ids.
Proof.
  eexists.
  destruct (ingest_text_adds_numbered_chunks 0 "d-1" "2025-01-01T00:00:00" unit_encode
              "One two. Three four! Five?" "Fables" "Direct Text" None 12 4 Sentences
              _ _ _ _ _ _ eq_refl eq_refl)
    as (docs & embeddings & metadatas & ids & Hadd & _ & _ & _ & _ & _ & _ & _ & _ & Hnd & _).
  exists docs, embeddings, metadatas, ids.
  split; [reflexivity|]. split; [exact Hadd|]. split; [|exact Hnd].
  cbn in Hadd. by injection Hadd as _ _ _ <-.
Defined.

(** X15: a text of nothing but whitespace is not ingested: nothing is embedded
    and nothing is added, whatever the embedding model would do, and the
    report says that no chunk was created. *)
Theorem ingest_text_blank (uuid4 utcnow : string)
    (encode : list string -> option (list (list Q)))
    (text dataset_name source_title : string) (dataset_id : option string)
    (chunk_size chunk_overlap : Z) (chunking_strategy : Strategy) :
  has_ink text = false ->
  text = EmptyString \/ chunk_overlap < chunk_size ->
  ingest_text (S (String.length text)) uuid4 utcnow encode text dataset_name
              source_title dataset_id chunk_size chunk_overlap chunking_strategy
  = Some (mkIngestion [] (NoChunksCreated (default uuid4 dataset_id) dataset_name)).
Proof.
  intros Hblank Hok. unfold ingest_text.
  assert (chunk_text (S (String.length text)) text chunk_size chunk_overlap
                     chunking_strategy = Some []) as ->; [|done].
  assert (chunk_by_characters (S (String.length text)) text chunk_size chunk_overlap
          = Some []) as Hchars.
  { destruct (chunk_by_characters_terminates text chunk_size chunk_overlap Hok)
      as [r Hr].
    rewrite Hr. f_equal. by apply chunk_by_characters_blank in Hr. }
  destruct chunking_strategy; cbn [chunk_text];
    by rewrite ?chunk_by_sentences_blank.
Qed.

Lemma ingest_text_blank_witness :
  ingest_text 3 "d-1" "2025-01-01T00:00:00" (fun _ => None) "  " "Fables"
              "Direct Text" (Some "fables") 500 50 Sentences
  = Some (mkIngestion [] (NoChunksCreated "fables" "Fables")).
Proof.
  apply (ingest_text_blank "d-1" "2025-01-01T00:00:00" (fun _ => None) "  " "Fables"
           "Direct Text" (Some "fables") 500 50 Sentences).
  - reflexivity.
  - right. reflexivity.
Defined.
End IngestionFacts.


(** * The pipeline *)

Section PipelineFacts.
Import Pipeline.
Context {W : Type}.

Lemma bind_Some {A B : Type} (c : Eff W A) (k : A -> Eff W B) (w w' : W) (y : B) :
  bind c k w = (Some y, w') ->
  exists x w1, c w = (Some x, w1) /\ k x w1 = (Some y, w').
Proof.
  unfold bind. destruct (c w) as [[x|] w1]; [by eauto|done].
Qed.

Lemma peek_Some {A : Type} (f : W -> option A) (w w' : W) (x : A) :
  peek f w = (Some x, w') -> f w = Some x /\ w' = w.
Proof. unfold peek. by intros [= -> ->]. Qed.

Lemma ret_Some {A : Type} (x y : A) (w w' : W) :
  ret x w = (Some y, w') -> y = x /\ w' = w.
Proof. unfold ret. by intros [= -> ->]. Qed.

Variable self : Services W.

(** What [generate] returns: the first choice of the completion it was
    given, its usage counters, the cost they come to, and the model and
    temperature it was asked for. *)
Lemma generate_Some (prompt model : string) (temperature : Q) (max_tokens : Z)
    (w w' : W) (g : Generation) :
  generate self prompt model temperature max_tokens w = (Some g, w') ->
  exists completion w0 w1,
    chat_completions_create self model prompt temperature max_tokens w0
    = (Some completion, w1)
    /\ choices completion !! 0%nat = Some (gen_text g)
    /\ gen_prompt_tokens g = usage_prompt_tokens completion
    /\ gen_completion_tokens g = usage_completion_tokens completion
    /\ gen_total_tokens g = usage_total_tokens completion
    /\ LLMClient._calculate_cost model (gen_prompt_tokens g) (gen_completion_tokens g)
       = Some (gen_cost g)
    /\ gen_model g = model /\ gen_temperature g = temperature.
Proof.
  unfold generate. intros H.
  apply bind_Some in H as (start_time & w0 & _ & H).
  apply bind_Some in H as (completion & w1 & Hcreate & H).
  apply bind_Some in H as (now & w2 & _ & H).
  apply bind_Some in H as (text & w3 & [Htext ->]%peek_Some & H).
  apply bind_Some in H as (cost & w4 & [Hcost ->]%peek_Some & H).
  apply ret_Some in H as [-> ->].
  exists completion, w0, w1. by split_and!.
Qed.
End PipelineFacts.

Section QueryFacts.
Import VectorStore Pipeline.
Context {W : Type}.
Variable self : Services W.

(** The scope [query] searches: the one it is given, or else the ids of
    the rows marked enabled that the database lists when asked, right after
    the first reading of the clock. *)
Definition resolved_scope (enabled_datasets : option (list string)) (w : W)
    (scope : list string) : Prop :=
  match enabled_datasets with
  | Some given => scope = given
  | None =>
      exists rows w1,
        list_datasets self (time_time self w).2 = (Some rows, w1)
        /\ scope = map ds_id (List.filter ds_enabled rows)
  end.

(** Everything a returned response is made of. *)
Lemma query_Some (q : string) (top_k : Z) (enabled_datasets : option (list string))
    (model : string) (temperature : Q) (max_tokens : Z) (min_score : Q)
    (w w' : W) (resp : Response) :
  query self q top_k enabled_datasets model temperature max_tokens min_score w
  = (Some resp, w') ->
  exists scope emb retrieved prompt g ws wg wg' l1 l2 l3 total,
    resolved_scope enabled_datasets w scope
    /\ returned (search (vector_store self ws) emb top_k (Some scope) min_score)
       = Some retrieved
    /\ system_prompt_format self (RAGPipeline._format_context retrieved) q = Some prompt
    /\ generate self prompt model temperature max_tokens wg = (Some g, wg')
    /\ resp =
       mkResponse (gen_text g) total
         [ mkStep "embedding" l1
             (Embedding (mkEmbeddingDetails (model_name (embedding_info self))
                           (dimensions (embedding_info self)) q
                           (take 5 emb) (Z.of_nat (length emb))));
           mkStep "retrieval" l2
             (Retrieval (mkRetrievalDetails
                (Z.of_nat (length retrieved))
                (map (fun chunk => mkChunkData (text chunk) (round4 (score chunk))
                                               (metadata chunk)) retrieved)
                (take 5 emb) (Z.of_nat (length emb)) top_k
                (match scope with [] => LabelAll | _ :: _ => LabelDatasets scope end)
                min_score (Z.of_nat (length retrieved))
                (map (fun chunk => (text chunk, round4 (score chunk))) retrieved)));
           mkStep "llm_generation" l3
             (Generated (mkGenerationDetails
                (gen_model g) (gen_prompt_tokens g) (gen_completion_tokens g)
                (gen_total_tokens g) (gen_cost g) (gen_temperature g)
                prompt model temperature max_tokens (gen_text g)
                (gen_total_tokens g))) ]
         prompt.
Proof.
  unfold query. intros H.
  apply bind_Some in H as (pipeline_start & w0 & Hstart & H).
  apply bind_Some in H as (scope & w1 & Hscope & H).
  assert (resolved_scope enabled_datasets w scope) as Hres.
  { unfold resolved_scope. rewrite Hstart. cbn [snd].
    destruct enabled_datasets as [given|].
    - by apply ret_Some in Hscope as [-> _].
    - apply bind_Some in Hscope as (rows & w1' & Hrows & Hscope).
      apply ret_Some in Hscope as [-> _]. by exists rows, w1'. }
  clear Hscope.
  apply bind_Some in H as (embedding_start & w2 & _ & H).
  apply bind_Some in H as (emb & w3 & _ & H).
  apply bind_Some in H as (now1 & w4 & _ & H).
  apply bind_Some in H as (retrieval_start & w5 & _ & H).
  apply bind_Some in H as (retrieved & w6 & [Hsearch ->]%peek_Some & H).
  apply bind_Some in H as (now2 & w7 & _ & H).
  apply bind_Some in H as (prompt & w8 & [Hprompt ->]%peek_Some & H).
  apply bind_Some in H as (llm_start & w9 & _ & H).
  apply bind_Some in H as (g & w10 & Hgen & H).
  apply bind_Some in H as (now3 & w11 & _ & H).
  apply bind_Some in H as (now4 & w12 & _ & H).
  apply ret_Some in H as [-> ->].
  eexists scope, emb, retrieved, prompt, g, w5, w9, w10, _, _, _, _.
  split_and!; [done..|]. reflexivity.
Qed.

(** X16: the trace of a returned response has exactly the three steps
    [embedding], [retrieval], [llm_generation], in that order, and is
    consistent: the answer is the generated text, the full prompt is the one
    sent to the model, the chunk counts are the number of chunks listed, the
    two steps report the same vector, and the cost is the one of the model
    asked for on the reported token counts. *)
Theorem query_trace (q : string) (top_k : Z) (enabled_datasets : option (list string))
    (model : string) (temperature : Q) (max_tokens : Z) (min_score : Q)
    (w w' : W) (resp : Response) :
  query self q top_k enabled_datasets model temperature max_tokens min_score w
  = (Some resp, w') ->
  exists l1 l2 l3 emb retr gen,
    steps resp = [ mkStep "embedding" l1 (Embedding emb);
                   mkStep "retrieval" l2 (Retrieval retr);
                   mkStep "llm_generation" l3 (Generated gen) ]
    /\ answer resp = det_generated_text gen
    /\ full_prompt resp = det_request_prompt gen
    /\ emb_query_text emb = q
    /\ ret_chunks_found retr = Z.of_nat (length (ret_chunks retr))
    /\ ret_chunks_retrieved retr = ret_chunks_found retr
    /\ length (ret_chunks_data retr) = length (ret_chunks retr)
    /\ (ret_chunks_found retr > 0 -> ret_enabled_datasets retr <> LabelAll)
    /\ emb_vector_preview emb = ret_query_embedding_preview retr
    /\ emb_vector_length emb = ret_vector_length retr
    /\ (length (emb_vector_preview emb) <= 5)%nat
    /\ det_model gen = model /\ det_request_model gen = model
    /\ det_tokens_used gen = det_total_tokens gen
    /\ LLMClient._calculate_cost model (det_prompt_tokens gen)
         (det_completion_tokens gen) = Some (det_cost gen).
Proof.
  intros H.
  apply query_Some in H as (scope & emb & retrieved & prompt & g & ws & wg & wg'
                            & l1 & l2 & l3 & total & Hscope & Hsearch & Hprompt
                            & Hgen & ->).
  apply generate_Some in Hgen
    as (completion & w0 & w1 & _ & _ & _ & _ & _ & Hcost & Hmodel & _).
  eexists l1, l2, l3, _, _, _. split; [reflexivity|]. cbn.
  split_and!; try done.
  - by rewrite length_map.
  - by rewrite !length_map.
  - destruct scope; [|done]. injection Hsearch as <-. cbn. lia.
  - rewrite length_take. lia.
Qed.

(** X17: when no scope is given, [query] searches the datasets the database
    marks enabled, never the whole index; the search it makes is over its
    resolved scope and its prompt is rendered from the context of what that
    search returned.  The trace labels the scope [all] exactly when the
    resolved scope is empty, and then nothing was searched: no chunk is
    reported and the prompt is rendered from the context
    [No relevant context found.]. *)
Theorem query_scope (q : string) (top_k : Z) (enabled_datasets : option (list string))
    (model : string) (temperature : Q) (max_tokens : Z) (min_score : Q)
    (w w' : W) (resp : Response) :
  query self q top_k enabled_datasets model temperature max_tokens min_score w
  = (Some resp, w') ->
  exists scope emb retrieved ws l2 retr,
    resolved_scope enabled_datasets w scope
    /\ returned (search (vector_store self ws) emb top_k (Some scope) min_score)
       = Some retrieved
    /\ (scope = [] ->
        queries (search (vector_store self ws) emb top_k (Some scope) min_score) = [])
    /\ system_prompt_format self (RAGPipeline._format_context retrieved) q
       = Some (full_prompt resp)
    /\ steps resp !! 1%nat = Some (mkStep "retrieval" l2 (Retrieval retr))
    /\ ret_chunks retr
       = map (fun chunk => mkChunkData (text chunk) (round4 (score chunk))
                                       (metadata chunk)) retrieved
    /\ (ret_enabled_datasets retr = LabelAll <-> scope = [])
    /\ (ret_enabled_datasets retr <> LabelAll ->
        ret_enabled_datasets retr = LabelDatasets scope)
    /\ (ret_enabled_datasets retr = LabelAll ->
        ret_chunks_found retr = 0
        /\ system_prompt_format self "No relevant context found." q
           = Some (full_prompt resp)).
Proof.
  intros H.
  apply query_Some in H as (scope & emb & retrieved & prompt & g & ws & wg & wg'
                            & l1 & l2 & l3 & total & Hscope & Hsearch & Hprompt
                            & Hgen & ->).
  eexists scope, emb, retrieved, ws, l2, _.
  split; [done|]. split; [done|].
  split; [by intros ->|]. split; [done|]. split; [reflexivity|]. cbn.
  split; [done|]. split; [by destruct scope|]. split; [by destruct scope|].
  destruct scope; [|done]. intros _. injection Hsearch as <-. by split.
Qed.
End QueryFacts.

Section QueryExamples.
Import VectorStore Pipeline.

(** Services for the examples.  The state is a clock in milliseconds that
    every reading advances by 7; the database lists two datasets, the
    second disabled; the index is the one of three entries; the prompt
    template is [{retrieved_chunks}|{user_query}]; the model answers with
    one choice. *)
Definition example_services (rows : list DatasetRow) : Services Z :=
  mkServices Z
    (fun w => (Some (inject_Z w / 1000)%Q, w + 7))
    (fun w => (Some rows, w))
    (fun _ w => (Some [1%Q; 0%Q; 0%Q; 0%Q; 0%Q; 0%Q], w))
    (mkEmbeddingInfo "all-MiniLM-L6-v2" 384 256)
    (fun _ => three_hit_store)
    (fun context question => Some (context +:+ "|" +:+ question))
    (fun _ _ _ _ w => (Some (mkCompletion ["The fox."] 40 3 43), w)).

Definition two_datasets : list DatasetRow :=
  [mkDatasetRow "fables" true; mkDatasetRow "drafts" false].

Definition no_enabled_dataset : list DatasetRow :=
  [mkDatasetRow "fables" false; mkDatasetRow "drafts" false].

(** The two runs of the examples, evaluated. *)
Definition trace_example : option Response * Z :=
  Eval vm_compute in
    query (example_services two_datasets) "Who wins?" 3 None "gpt-4o" 0.7 500 (3 # 4) 0.

Definition scope_example : option Response * Z :=
  Eval vm_compute in
    query (example_services no_enabled_dataset) "Who wins?" 3 None "gpt-4o" 0.7 500 0 0.

Lemma query_trace_witness :
  exists resp w',
    trace_example = (Some resp, w')
    /\ query (example_services two_datasets) "Who wins?" 3 None "gpt-4o" 0.7 500 (3 # 4) 0
       = (Some resp, w')
    /\ name <$> steps resp = ["embedding"; "retrieval"; "llm_generation"]
    /\ answer resp = "The fox."
    /\ exists l1 l2 l3 emb retr gen,
         steps resp = [ mkStep "embedding" l1 (Embedding emb);
                        mkStep "retrieval" l2 (Retrieval retr);
                        mkStep "llm_generation" l3 (Generated gen) ]
         /\ answer resp = det_generated_text gen
         /\ ret_chunks_found retr = Z.of_nat (length (ret_chunks retr))
         /\ LLMClient._calculate_cost "gpt-4o" (det_prompt_tokens gen)
              (det_completion_tokens gen) = Some (det_cost gen).
Proof.
  eexists _, _. split; [reflexivity|].
  assert (query (example_services two_datasets) "Who wins?" 3 None "gpt-4o" 0.7 500
                (3 # 4) 0 = trace_example) as Hrun by (vm_compute; reflexivity).
  split; [exact Hrun|]. split; [reflexivity|]. split; [reflexivity|].
  destruct (query_trace (example_services two_datasets) "Who wins?" 3 None "gpt-4o"
              0.7 500 (3 # 4) 0 _ _ Hrun)
    as (l1 & l2 & l3 & emb & retr & gen & Hsteps & Hanswer & _ & _ & Hfound
        & _ & _ & _ & _ & _ & _ & _ & _ & _ & Hcost).
  exists l1, l2, l3, emb, retr, gen.
  split; [exact Hsteps|]. split; [exact Hanswer|]. split; [exact Hfound|exact Hcost].
Defined.

Lemma query_scope_witness :
  exists resp w',
    scope_example = (Some resp, w')
    /\ query (example_services no_enabled_dataset) "Who wins?" 3 None "gpt-4o" 0.7 500 0 0
       = (Some resp, w')
    /\ full_prompt resp = "No relevant context found.|Who wins?"
    /\ exists scope l2 retr,
         resolved_scope (example_services no_enabled_dataset) None 0 scope
         /\ steps resp !! 1%nat = Some (mkStep "retrieval" l2 (Retrieval retr))
         /\ (ret_enabled_datasets retr = LabelAll <-> scope = []).
Proof.
  eexists _, _. split; [reflexivity|].
  assert (query (example_services no_enabled_dataset) "Who wins?" 3 None "gpt-4o" 0.7
                500 0 0 = scope_example) as Hrun by (vm_compute; reflexivity).
  split; [exact Hrun|]. split; [reflexivity|].
  destruct (query_scope (example_services no_enabled_dataset) "Who wins?" 3 None
              "gpt-4o" 0.7 500 0 0 _ _ Hrun)
    as (scope & emb & retrieved & ws & l2 & retr & Hscope & _ & _ & _ & Hstep & _
        & Hall & _).
  exists scope, l2, retr. split; [exact Hscope|]. split; [exact Hstep|exact Hall].
Defined.
End QueryExamples.

Section SearchScope.
Import VectorStore.

(** The documents a [where] filter selects, by their [dataset_id]:
    [{"dataset_id": d}] is equality and [{"dataset_id": {"$in": ds}}]
    membership. *)
Definition selects (filter : WhereFilter) (dataset_id : string) : Prop :=
  match filter with
  | WhereDataset d => dataset_id = d
  | WhereDatasetIn ds => dataset_id ∈ ds
  end.

(** X9: for a scope that is not empty, [search] sends the index one query, for
    [top_k] neighbours of the query embedding, whose filter selects exactly
    the datasets of the scope, be there one or several. *)
Theorem search_scopes_query (self : VectorStore) (query_embedding : list Q)
    (top_k : Z) (scope : list string) (min_score : Q) :
  scope <> [] ->
  exists filter,
    queries (search self query_embedding top_k (Some scope) min_score)
    = [mkQueryCall [query_embedding] top_k (Some filter)]
    /\ forall dataset_id, selects filter dataset_id <-> dataset_id ∈ scope.
Proof.
  intros Hscope. destruct scope as [|d [|d' ds]]; [done|..].
  - exists (WhereDataset d). split; [done|]. intros x. cbn.
    by rewrite list_elem_of_singleton.
  - by exists (WhereDatasetIn (d :: d' :: ds)).
Qed.

Lemma search_scopes_query_witness :
  exists filter,
    queries (search one_hit_store [1%Q] 5 (Some ["fables"; "myths"]) 0%Q)
    = [mkQueryCall [[1%Q]] 5 (Some filter)]
    /\ forall dataset_id, selects filter dataset_id <-> dataset_id ∈ ["fables"; "myths"].
Proof.
  apply (search_scopes_query one_hit_store [1%Q] 5 ["fables"; "myths"] 0%Q).
  discriminate.
Defined.
End SearchScope.
